(** * dnsmng: the resolver writer, the last-selection store, the startup
    coordinator and the watch loop, embedded from [main.go].

    The Go program is a sequence of calls into the operating system
    ([os.ReadFile], [os.WriteFile], [os.MkdirAll], the [log] package,
    [fsnotify]).  We model the operating system as an explicit [World]
    threaded through a small state-and-exit monad [IO]; every function of
    the source becomes an [IO] computation with the same name. *)

From stdpp Require Import gmap strings list.
From Stdlib Require Import ZArith Ascii String.

Open Scope string_scope.
Open Scope list_scope.

(** ** Go values *)

(** A Go [error] value; [nil] is [None] in [option error]. *)
Definition error := string.

(** The byte 0x0A, written ["\n"] in the Go source. *)
Definition nl : string := String (ascii_of_nat 10) EmptyString.

(** [err != nil] *)
Definition not_nil (err : option error) : bool :=
  match err with
  | Some _ => true
  | None => false
  end.

(** ** The operating system *)

(** What the next system call will do.  A failing [os.WriteFile] either
    fails before the file is opened ([partial = None], file untouched) or
    after it has been truncated and [n] bytes have been written
    ([partial = Some n]). *)
Inductive Fault :=
  | NoFault
  | Fail (e : error) (partial : option nat).

(** What the process has done, as seen from outside. *)
Inductive Effect :=
  | SysReadFile (path : string)
  | SysWriteFile (path data : string)
  | SysMkdirAll (path : string)
  | SysNewWatcher
  | SysWatchAdd (path : string)
  | Stdout (text : string)
  | Log (text : string).

(** [files] maps a path to the content of the regular file there;
    [faults] is the oracle deciding which of the coming system calls fail
    (one entry is consumed per call, an exhausted oracle means success);
    [trace] lists the effects performed so far, most recent first. *)
Record World := mkWorld {
  files : gmap string string;
  faults : list Fault;
  trace : list Effect
}.

Definition set_files (f : gmap string string) (w : World) : World :=
  mkWorld f (faults w) (trace w).
Definition set_faults (fs : list Fault) (w : World) : World :=
  mkWorld (files w) fs (trace w).
Definition emit (e : Effect) (w : World) : World :=
  mkWorld (files w) (faults w) (e :: trace w).

(** ** The monad *)

(** A computation returns, or ends the process with an exit status, or
    parks the calling goroutine for ever while the watch task serves the
    address list [dnsIPs] (the receive on [done] in [watchResolvConf]). *)
Inductive Result (A : Type) :=
  | Ret (a : A)
  | Exit (code : Z)
  | Parked (dnsIPs : list string).
Arguments Ret {A} a.
Arguments Exit {A} code.
Arguments Parked {A} dnsIPs.

Definition IO (A : Type) : Type := World → Result A * World.

Definition ret {A} (a : A) : IO A := λ w, (Ret a, w).

Definition bind {A B} (m : IO A) (k : A → IO B) : IO B :=
  λ w, match m w with
       | (Ret a, w') => k a w'
       | (Exit c, w') => (Exit c, w')
       | (Parked l, w') => (Parked l, w')
       end.

Notation "'let*' x := m 'in' k" := (bind m (λ x, k))
  (at level 10, x name, m at level 100, k at level 200, only parsing).
Notation "'let*' ' p := m 'in' k" := (bind m (λ x, match x with p => k end))
  (at level 10, p pattern, m at level 100, k at level 200, only parsing).

Definition perform (e : Effect) : IO unit := λ w, (Ret tt, emit e w).

Definition nextFault : IO Fault :=
  λ w, match faults w with
       | [] => (Ret NoFault, w)
       | f :: fs => (Ret f, set_faults fs w)
       end.

(** ** Package [os] *)

Definition ENOENT (path : string) : error :=
  "open " +:+ path +:+ ": no such file or directory".

(** [os.ReadFile(name)]: the pair [(data, err)]. *)
Definition os_ReadFile (path : string) : IO (string * option error) :=
  let* _ := perform (SysReadFile path) in
  let* f := nextFault in
  match f with
  | Fail e _ => ret ("", Some e)
  | NoFault =>
      λ w, match files w !! path with
           | Some data => (Ret (data, None), w)
           | None => (Ret ("", Some (ENOENT path)), w)
           end
  end.

Definition take_bytes (n : nat) (s : string) : string :=
  string_of_list_ascii (take n (list_ascii_of_string s)).

(** [os.WriteFile(name, data, perm)]: create or truncate, then write. *)
Definition os_WriteFile (path data : string) : IO (option error) :=
  let* _ := perform (SysWriteFile path data) in
  let* f := nextFault in
  match f with
  | NoFault => λ w, (Ret None, set_files (<[path := data]> (files w)) w)
  | Fail e None => ret (Some e)
  | Fail e (Some n) =>
      λ w, (Ret (Some e), set_files (<[path := take_bytes n data]> (files w)) w)
  end.

(** [os.MkdirAll(path, perm)].  Directories are not part of [files]; the
    oracle stands for every reason the call can fail. *)
Definition os_MkdirAll (path : string) : IO (option error) :=
  let* _ := perform (SysMkdirAll path) in
  let* f := nextFault in
  match f with
  | NoFault => ret None
  | Fail e _ => ret (Some e)
  end.

(** [os.Exit(code)]. *)
Definition os_Exit {A} (code : Z) : IO A := λ w, (Exit code, w).

(** ** Packages [fmt] and [log] *)

Definition fmt_Printf (text : string) : IO unit := perform (Stdout text).
Definition log_Printf (text : string) : IO unit := perform (Log text).
Definition log_Println (text : string) : IO unit := perform (Log (text +:+ nl)).
(** [log.Fatalf] is [log.Printf] followed by [os.Exit(1)]. *)
Definition log_Fatalf {A} (text : string) : IO A :=
  let* _ := log_Printf text in os_Exit 1.
Definition log_Fatal {A} (e : error) : IO A :=
  let* _ := log_Println e in os_Exit 1.

(** The verb [%v] applied to a [[]string]. *)
Fixpoint join_sp (l : list string) : string :=
  match l with
  | [] => ""
  | [x] => x
  | x :: r => x +:+ " " +:+ join_sp r
  end.
Definition fmt_v (l : list string) : string := "[" +:+ join_sp l +:+ "]".

(** ** The program *)

Record Config := mkConfig { DNS : gmap string (list string) }.

Definition lastDNSFilePath : string := "/var/lib/dnsmng/last_dns".
Definition resolvConfPath : string := "/etc/resolv.conf".

(** [v, ok := m[k]] *)
Definition index2 (m : gmap string (list string)) (k : string)
  : list string * bool :=
  match m !! k with
  | Some v => (v, true)
  | None => ([], false)
  end.

(** [m[k]] *)
Definition index1 (m : gmap string (list string)) (k : string) : list string :=
  (index2 m k).1.

(** The [for ... range dnsIPs] loop over the [strings.Builder]. *)
Definition buildContent (dnsIPs : list string) : string :=
  fold_left (λ content ip, content +:+ ("nameserver " +:+ ip +:+ nl)) dnsIPs "".

(** [setDNS] has the same body in both versions of [main.go]
    ([ioutil.WriteFile] in the older one). *)
Definition setDNS (dnsIPs : list string) : IO (option error) :=
  os_WriteFile "/etc/resolv.conf" (buildContent dnsIPs).

(** Read the last saved DNS name from a file. *)
Definition readLastDNS : IO (string * option error) :=
  let* '(data, err) := os_ReadFile lastDNSFilePath in
  match err with
  | Some e => ret ("", Some e)
  | None => ret (data, None)
  end.

(** [filepath.Dir] on a path that is already clean: everything before the
    last separator, ["/"] for a file directly under the root and ["."]
    for a path without separator. *)
Definition is_sep (a : ascii) : bool := Ascii.eqb a "/"%char.

Fixpoint drop_while {A} (p : A → bool) (l : list A) : list A :=
  match l with
  | [] => []
  | x :: r => if p x then drop_while p r else l
  end.

Definition filepath_Dir (path : string) : string :=
  let rev_path := rev (list_ascii_of_string path) in
  let upto_sep := drop_while (λ a, negb (is_sep a)) rev_path in
  match drop_while is_sep upto_sep with
  | [] => match upto_sep with [] => "." | _ => "/" end
  | d => string_of_list_ascii (rev d)
  end.

(** Save the last selected DNS name to a file. *)
Definition saveLastDNS (dnsName : string) : IO (option error) :=
  let dir := filepath_Dir lastDNSFilePath in
  let* err := os_MkdirAll dir in
  match err with
  | Some e => ret (Some e)
  | None => os_WriteFile lastDNSFilePath dnsName
  end.

(** *** Package [fsnotify], as far as [watchResolvConf] sets it up *)

Definition fsnotify_NewWatcher : IO (option error) :=
  let* _ := perform SysNewWatcher in
  let* f := nextFault in
  match f with
  | NoFault => ret None
  | Fail e _ => ret (Some e)
  end.

Definition watcher_Add (path : string) : IO (option error) :=
  let* _ := perform (SysWatchAdd path) in
  let* f := nextFault in
  match f with
  | NoFault => ret None
  | Fail e _ => ret (Some e)
  end.

(** The receive on [done], a channel nobody sends on or closes. *)
Definition park {A} (dnsIPs : list string) : IO A := λ w, (Parked dnsIPs, w).

(** [watchResolvConf] up to the point where the calling goroutine blocks:
    the watcher is created, the task of [go func() {...}()] is started
    with [dnsIPs] captured (its loop is [watchTask] below), the resolver
    file is subscribed.  The deferred [watcher.Close()] never runs:
    [log.Fatal] exits without running deferred calls and the receive on
    [done] does not return. *)
Definition watchResolvConf (dnsIPs : list string) : IO unit :=
  let* err := fsnotify_NewWatcher in
  let* _ := match err with
            | Some e => log_Fatal e
            | None => ret tt
            end in
  let* err := watcher_Add resolvConfPath in
  let* _ := match err with
            | Some e => log_Fatal e
            | None => ret tt
            end in
  park dnsIPs.

Section Startup.

(** [yaml.Unmarshal(data, &config)]: the parser is an external
    collaborator; it fills the [Config] it is handed and may fail. *)
Variable yaml_Unmarshal : string → Config → Config * option error.

Definition readConfig (filePath : string) : IO (option Config * option error) :=
  let* '(data, err) := os_ReadFile filePath in
  match err with
  | Some e => ret (None, Some e)
  | None =>
      let config := mkConfig ∅ in
      let '(config, err) := yaml_Unmarshal data config in
      match err with
      | Some e => ret (None, Some e)
      | None => ret (Some config, None)
      end
  end.

(** Lines 125-142 of [main]: the branch [*domain != ""]. *)
Definition main_set (config : Config) (domain : string) : IO unit :=
  let '(dnsIPs, exists_) := index2 (DNS config) domain in
  let* _ := if negb exists_
            then log_Fatalf ("DNS entry for '" +:+ domain +:+ "' not found in config" +:+ nl)
            else ret tt in
  let* err := setDNS dnsIPs in
  let* _ := match err with
            | Some e => log_Fatalf ("Error setting DNS: " +:+ e +:+ nl)
            | None => ret tt
            end in
  let* err := saveLastDNS domain in
  let* _ := match err with
            | Some e => log_Fatalf ("Error saving last DNS: " +:+ e +:+ nl)
            | None => ret tt
            end in
  log_Printf ("DNS set to " +:+ fmt_v dnsIPs +:+ " for domain '" +:+ domain +:+ "'" +:+ nl).

(** Lines 145-151 of [main]: the name the [else] branch goes on with. *)
Definition main_lastDNS : IO string :=
  let* '(lastDNS, err) := readLastDNS in
  if not_nil err || String.eqb lastDNS "" then
    let* _ := log_Println "No previous DNS set or file missing, defaulting to 'local' DNS" in
    ret "local"
  else ret lastDNS.

(** Lines 144-164 of [main]: the branch [*domain == ""]. *)
Definition main_restore (config : Config) : IO unit :=
  let* lastDNS := main_lastDNS in
  let '(dnsIPs, exists_) := index2 (DNS config) lastDNS in
  let* _ := if negb exists_
            then log_Fatalf ("DNS entry for '" +:+ lastDNS +:+ "' not found in config" +:+ nl)
            else ret tt in
  let* err := setDNS dnsIPs in
  let* _ := match err with
            | Some e => log_Fatalf ("Error setting DNS: " +:+ e +:+ nl)
            | None => ret tt
            end in
  log_Printf ("Restored last DNS: " +:+ lastDNS +:+ nl).

(** Lines 168-172 of [main]: the list handed to [watchResolvConf]. *)
Definition main_watched (config : Config) (domain : string) : IO (list string) :=
  let '(dnsIPs, exists_) := index2 (DNS config) domain in
  if negb exists_ then
    let* '(lastDNS, _) := readLastDNS in
    ret (index1 (DNS config) lastDNS)
  else ret dnsIPs.

(** [main], given the values of the flags [--config] and [--set]. *)
Definition main (configPath domain : string) : IO unit :=
  let* '(config, err) := readConfig configPath in
  let* _ := match err with
            | Some e =>
                let* _ := fmt_Printf ("Error reading config file: " +:+ e +:+ nl) in
                os_Exit 1
            | None => ret tt
            end in
  (* [config.DNS] through a nil pointer panics; a Go panic exits with 2 *)
  let* config := match config with
                 | Some c => ret c
                 | None => os_Exit 2
                 end in
  let* _ := if negb (String.eqb domain "")
            then main_set config domain
            else main_restore config in
  let* dnsIPs := main_watched config domain in
  watchResolvConf dnsIPs.

End Startup.

(** ** The watch task *)

(** [fsnotify.Event]; [Op] is a bit mask ([uint32]). *)
Record Event := mkEvent { Name : string; Op : Z }.

(** A Go channel: the values sent and not yet received, oldest first, and
    whether it has been closed. *)
Record chan (A : Type) := mkChan { buf : list A; closed : bool }.
Arguments mkChan {A} buf closed.
Arguments buf {A} c.
Arguments closed {A} c.

(** [v, ok := <-c]: the oldest value with [ok = true]; on a closed and
    drained channel the zero value with [ok = false]; [None] when the
    receive is not ready. *)
Definition recv {A} (zero : A) (c : chan A) : option (A * bool * chan A) :=
  match buf c with
  | v :: rest => Some (v, true, mkChan rest (closed c))
  | [] => if closed c then Some (zero, false, c) else None
  end.

(** [watcher.Events] and [watcher.Errors]. *)
Record Watcher := mkWatcher { Events : chan Event; Errors : chan error }.

(** The two [case]s of the [select]. *)
Inductive Case := CaseEvents | CaseErrors.

(** What a [case] of the [select] received. *)
Inductive Msg :=
  | MEvent (event : Event) (ok : bool)
  | MError (err : error) (ok : bool).

Definition delivered (m : Msg) : bool :=
  match m with
  | MEvent _ ok => ok
  | MError _ ok => ok
  end.

(** One [select]: the case [pick] runs if its receive is ready. *)
Definition select (pick : Case) (wt : Watcher) : option (Msg * Watcher) :=
  match pick with
  | CaseEvents =>
      match recv (mkEvent "" 0) (Events wt) with
      | Some (event, ok, c) => Some (MEvent event ok, mkWatcher c (Errors wt))
      | None => None
      end
  | CaseErrors =>
      match recv "" (Errors wt) with
      | Some (err, ok, c) => Some (MError err ok, mkWatcher (Events wt) c)
      | None => None
      end
  end.

(** What an iteration of [for { select {...} }] does next. *)
Inductive Ctl := Continue | Return.

Section Watch.

(** The constant [fsnotify.Write]. *)
Variable fsnotify_Write : Z.

(** [event.Op&fsnotify.Write == fsnotify.Write] *)
Definition is_write (event : Event) : bool :=
  Z.eqb (Z.land (Op event) fsnotify_Write) fsnotify_Write.

(** The list captured by the task. *)
Variable dnsIPs : list string.

(** The body of the loop in the task started by [watchResolvConf], for
    the message the [select] received. *)
Definition loop_body (m : Msg) : IO Ctl :=
  match m with
  | MEvent event ok =>
      if negb ok then ret Return
      else
        let* _ :=
          if is_write event then
            let* _ := log_Println "Detected change in /etc/resolv.conf, restoring DNS settings" in
            let* err := setDNS dnsIPs in
            match err with
            | Some e => log_Printf ("Error restoring DNS: " +:+ e +:+ nl)
            | None => ret tt
            end
          else ret tt in
        ret Continue
  | MError err ok =>
      if negb ok then ret Return
      else
        let* _ := log_Println ("Error: " +:+ err) in
        ret Continue
  end.

(** A state of the task: its channels and the world. *)
Definition TaskState : Type := Watcher * World.

(** One iteration of the loop, labelled with the message received. *)
Inductive step : TaskState → Msg → Ctl → TaskState → Prop :=
  | step_select pick wt wt' m w w' c :
      select pick wt = Some (m, wt') →
      loop_body m w = (Ret c, w') →
      step (wt, w) m c (wt', w').

(** Everything that is not the task: the watcher's producer sending on
    or closing the channels, other processes writing files, the oracle
    changing.  Only the task's own record of effects is out of reach. *)
Definition env (s s' : TaskState) : Prop := trace s'.2 = trace s.2.

(** A run of the task: iterations interleaved with the environment,
    labelled with the messages received, until now ([Continue]) or
    until the task returned ([Return]). *)
Inductive run : TaskState → list Msg → Ctl → TaskState → Prop :=
  | run_now s : run s [] Continue s
  | run_env s s1 ms c s' : env s s1 → run s1 ms c s' → run s ms c s'
  | run_iter s m s1 ms c s' :
      step s m Continue s1 → run s1 ms c s' → run s (m :: ms) c s'
  | run_return s m s' : step s m Return s' → run s [m] Return s'.

(** The write-class events among the messages received. *)
Definition is_write_msg (m : Msg) : bool :=
  match m with
  | MEvent event true => is_write event
  | _ => false
  end.


End Watch.

(** The writes to the file at [path] recorded in a trace, most recent
    first. *)
Fixpoint writes_to (path : string) (t : list Effect) : list string :=
  match t with
  | [] => []
  | SysWriteFile p data :: r =>
      if String.eqb p path then data :: writes_to path r else writes_to path r
  | _ :: r => writes_to path r
  end.

(** Every write recorded in a trace, whatever the file. *)
Fixpoint all_writes (t : list Effect) : list (string * string) :=
  match t with
  | [] => []
  | SysWriteFile p data :: r => (p, data) :: all_writes r
  | _ :: r => all_writes r
  end.

(** The system calls recorded in a trace (everything but the lines
    printed and logged), most recent first. *)
Definition is_syscall (e : Effect) : bool :=
  match e with
  | Stdout _ | Log _ => false
  | _ => true
  end.

Definition syscalls (t : list Effect) : list Effect := List.filter is_syscall t.

(** ** The resolver file as the specification words it *)

(** One line [nameserver <ip>] per address, in order, each terminated by
    a newline. *)
Fixpoint resolv_lines (ips : list string) : string :=
  match ips with
  | [] => ""
  | ip :: rest => "nameserver " +:+ ip +:+ nl +:+ resolv_lines rest
  end.

(** ** Vocabulary of the statements *)

(** The oracle's answer to the next system call. *)
Definition next_fault (w : World) : Fault := hd NoFault (faults w).

(** The world after one system call that recorded [e] and left the files
    as [f]. *)
Definition after_call (e : Effect) (f : gmap string string) (w : World) : World :=
  mkWorld f (tail (faults w)) (e :: trace w).

(** The world after a successful [os.WriteFile(path, data, _)]. *)
Definition written (path data : string) (w : World) : World :=
  after_call (SysWriteFile path data) (<[path := data]> (files w)) w.

(** ASCII control characters: below 0x20, and 0x7F. *)
Definition is_control (a : ascii) : bool :=
  (nat_of_ascii a <? 32)%nat || (nat_of_ascii a =? 127)%nat.

Definition no_control (s : string) : bool :=
  forallb (λ a, negb (is_control a)) (list_ascii_of_string s).

(** A channel that has been closed and holds nothing more. *)
Definition drained {A} (c : chan A) : bool :=
  match buf c with
  | [] => closed c
  | _ => false
  end.

(** The reading of the watch task under which it returns only once both
    subscription channels are closed. *)
Definition returns_only_when_both_closed (fsnotify_Write : Z) (dnsIPs : list string) : Prop :=
  ∀ wt w m wt' w',
    step fsnotify_Write dnsIPs (wt, w) m Return (wt', w') →
    closed (Events wt) = true ∧ closed (Errors wt) = true.

(** ** A machine to run the program on *)

Module Demo.

(** The configuration of the specification's scenarios. *)
Definition config : Config :=
  mkConfig (<["local" := ["127.0.0.1"]]>
            (<["cloudflare" := ["1.1.1.1"; "1.0.0.1"]]> ∅)).

Definition configPath : string := "/etc/dnsmng/config.yaml".
Definition configText : string := "dns: {local: [127.0.0.1], cloudflare: [1.1.1.1, 1.0.0.1]}".

(** A parser that knows this one document. *)
Definition yaml_Unmarshal (data : string) (into : Config) : Config * option error :=
  if String.eqb data configText then (config, None)
  else (into, Some "yaml: unmarshal errors").

(** A machine with the configuration file only, and no failing call. *)
Definition fresh : World := mkWorld {[ configPath := configText ]} [] [].

(** The same machine, on which the third system call from now fails
    (in [main --set cloudflare]: the [os.MkdirAll] of [saveLastDNS]). *)
Definition third_call_fails : World :=
  mkWorld {[ configPath := configText ]}
          [NoFault; NoFault; Fail "mkdir /var/lib/dnsmng: permission denied" None] [].

(** The machine after an earlier [--set cloudflare]. *)
Definition restarted : World :=
  mkWorld (<[lastDNSFilePath := "cloudflare"]> {[ configPath := configText ]}) [] [].

(** A machine whose last-selection file names a profile that the
    configuration does not have. *)
Definition stale : World :=
  mkWorld (<[lastDNSFilePath := "google"]> {[ configPath := configText ]}) [] [].

(** The value of the constant [Write] in fsnotify's [Op] enumeration
    ([Create Op = 1 << iota], then [Write]). *)
Definition Write : Z := 2.

(** The watcher whose event channel has been closed while its error
    channel is still open. *)
Definition events_closed : Watcher :=
  mkWatcher (mkChan [] true) (mkChan [] false).


(** A machine whose resolver file was overwritten by somebody else, and
    on which the next write fails before the file is opened. *)
Definition tampered : World :=
  mkWorld {[ resolvConfPath := "nameserver 8.8.8.8" +:+ nl ]}
          [Fail "open /etc/resolv.conf: permission denied" None] [].

End Demo.

(** ** The earlier [main.go] *)

(** The one-shot program of [src/main.go]: [readConfig] and [setDNS] are
    the functions above (read and written through [ioutil]); [main]
    applies one profile, reports on standard output and returns. *)
Module Legacy.

Section Program.

Variable yaml_Unmarshal : string → Config → Config * option error.

(** [main], given the values of the flags [--config] and [--set] (the
    latter defaults to ["local"] in the flag declaration). *)
Definition main (configPath domain : string) : IO unit :=
  let* '(config, err) := readConfig yaml_Unmarshal configPath in
  let* _ := match err with
            | Some e =>
                let* _ := fmt_Printf ("Error reading config file: " +:+ e +:+ nl) in
                os_Exit 1
            | None => ret tt
            end in
  (* [config.DNS] through a nil pointer panics; a Go panic exits with 2 *)
  let* config := match config with
                 | Some c => ret c
                 | None => os_Exit 2
                 end in
  let '(dnsIPs, exists_) := index2 (DNS config) domain in
  let* _ := if negb exists_
            then
              let* _ := fmt_Printf ("DNS entry for '" +:+ domain +:+ "' not found in config" +:+ nl) in
              os_Exit 1
            else ret tt in
  let* err := setDNS dnsIPs in
  let* _ := match err with
            | Some e =>
                let* _ := fmt_Printf ("Error setting DNS: " +:+ e +:+ nl) in
                os_Exit 1
            | None => ret tt
            end in
  fmt_Printf ("DNS set to " +:+ fmt_v dnsIPs +:+ " for domain '" +:+ domain +:+ "'" +:+ nl).

End Program.

End Legacy.

(** ** Vocabulary for what a computation never does *)

(** Every run of [m] relates the world before to the world after by [R]. *)
Definition respects {A} (R : World → World → Prop) (m : IO A) : Prop :=
  ∀ w r w', m w = (r, w') → R w w'.

(** Outside the paths in [P], every file is as it was. *)
Definition only_files (P : string → Prop) (w w' : World) : Prop :=
  ∀ path, ¬ P path → files w' !! path = files w !! path.

(** The file map is as it was. *)
Definition same_files (w w' : World) : Prop := files w' = files w.

(** When [m] ends the process, the status is 1. *)
Definition exits_1 {A} (m : IO A) : Prop :=
  ∀ w c w', m w = (Exit c, w') → c = 1%Z.

(** [m] does not return to its caller. *)
Definition no_ret {A} (m : IO A) : Prop :=
  ∀ w a w', m w ≠ (Ret a, w').

(** [m] does not end the process and does not park. *)
Definition returns {A} (m : IO A) : Prop :=
  ∀ w, ∃ a w', m w = (Ret a, w').

(** The latest effect in the trace is a line printed or logged. *)
Definition said_last (w : World) : Prop :=
  ∃ text, head (trace w) = Some (Log text) ∨ head (trace w) = Some (Stdout text).

(** When [m] ends the process, a message is the last thing it did. *)
Definition loud {A} (m : IO A) : Prop :=
  ∀ w c w', m w = (Exit c, w') → said_last w'.

(** The two files the program owns. *)
Definition owned (path : string) : Prop :=
  path = resolvConfPath ∨ path = lastDNSFilePath.

(** Total length of the lines written for a list of addresses. *)
Fixpoint lines_length (ips : list string) : nat :=
  match ips with
  | [] => 0
  | ip :: rest => 11 + String.length ip + 1 + lines_length rest
  end.

(** More machines. *)
Module Bench.

(** A machine on which creating the record's directory fails. *)
Definition mkdir_fails : World :=
  mkWorld ∅ [Fail "mkdir /var/lib/dnsmng: permission denied" None] [].

(** A machine with the configuration file, on which the first write
    fails after truncating the file ([main --set]: the write of the
    resolver file is the second call). *)
Definition write_fails : World :=
  mkWorld (<[resolvConfPath := "nameserver 9.9.9.9" +:+ nl]>
           (<[lastDNSFilePath := "local"]> {[ Demo.configPath := Demo.configText ]}))
          [NoFault; Fail "write /etc/resolv.conf: no space left on device" (Some 0)] [].

(** A machine without configuration file. *)
Definition bare : World := mkWorld ∅ [] [].

(** A machine on which the watcher cannot be created. *)
Definition no_inotify : World :=
  mkWorld ∅ [Fail "too many open files" None] [].

(** An event for a change of mode only, and one for a write together
    with a change of mode ([Chmod] is 16 in fsnotify's enumeration). *)
Definition chmod_only : Event := mkEvent resolvConfPath 16.
Definition write_and_chmod : Event := mkEvent resolvConfPath 18.

End Bench.

(** ** The command line *)

Section CommandLine.

(** [flag.Parse()] on the flag set declared by the two [flag.String]
    calls: given the default of [--config], the default of [--set] and
    the arguments of the process, it returns the values of the two
    flags, or ends the process itself (a flag that is not declared or
    lacks its value, [-h]).  The flag package is an external
    collaborator. *)
Variable flag_Parse : string → string → list string → IO (string * string).

Variable yaml_Unmarshal : string → Config → Config * option error.

(** [main] from the arguments of the process: lines 112-114, then the
    rest of [main] on the values of the flags. *)
Definition main_argv (args : list string) : IO unit :=
  let* '(configPath, domain) := flag_Parse "/etc/dnsmng/config.yaml" "" args in
  main yaml_Unmarshal configPath domain.

(** The earlier [main] from the arguments of the process: lines 44-46 of
    [src/main.go], where [--set] defaults to ["local"], then the rest. *)
Definition legacy_main_argv (args : list string) : IO unit :=
  let* '(configPath, domain) := flag_Parse "/etc/dnsmng/config.yaml" "local" args in
  Legacy.main yaml_Unmarshal configPath domain.

End CommandLine.

(** A stand-in for the flag package that knows the forms [-config v],
    [-set v] and [-h]: a first argument without dash ends the parsing,
    [-h] prints the usage and exits with status 0, anything else is
    refused with status 2. *)
Module Cli.

Definition is_dash (a : string) : bool :=
  match a with
  | String c _ => Ascii.eqb c "-"%char
  | EmptyString => false
  end.

Fixpoint parse (config set : string) (args : list string) : Result (string * string) * list string :=
  match args with
  | [] => (Ret (config, set), [])
  | a :: rest =>
      if negb (is_dash a) then (Ret (config, set), [])
      else if String.eqb a "-h" then (Exit 0, ["Usage of dnsmng:"])
      else
        match rest with
        | v :: rest' =>
            if String.eqb a "-config" then parse v set rest'
            else if String.eqb a "-set" then parse config v rest'
            else (Exit 2, ["flag provided but not defined: " +:+ a])
        | [] =>
            if String.eqb a "-config" || String.eqb a "-set"
            then (Exit 2, ["flag needs an argument: " +:+ a])
            else (Exit 2, ["flag provided but not defined: " +:+ a])
        end
  end.

(** What the package prints is recorded as lines printed. *)
Definition flag_Parse (config set : string) (args : list string) : IO (string * string) :=
  λ w, let '(r, said) := parse config set args in
       (r, mkWorld (files w) (faults w) (map Stdout said ++ trace w)).

(** A watcher holding one subscription error. *)
Definition one_error : Watcher :=
  mkWatcher (mkChan [] false) (mkChan ["inotify: queue overflow"] false).

End Cli.

(** ** Strings *)

Lemma append_assoc (a b c : string) : (a +:+ b) +:+ c = a +:+ (b +:+ c).
Proof.
  induction a as [|x a IH]; [reflexivity|].
  change (String x ((a +:+ b) +:+ c) = String x (a +:+ (b +:+ c))).
  by rewrite IH.
Qed.

Lemma append_empty_r (a : string) : a +:+ "" = a.
Proof.
  induction a as [|x a IH]; [reflexivity|].
  change (String x (a +:+ "") = String x a).
  by rewrite IH.
Qed.

Example filepath_Dir_lastDNSFilePath : filepath_Dir lastDNSFilePath = "/var/lib/dnsmng".
Proof. reflexivity. Qed.

(** ** The resolver writer *)

(** The builder loop started from [acc] appends the lines to [acc]. *)
Lemma buildContent_from (ips : list string) (acc : string) :
  fold_left (λ content ip, content +:+ ("nameserver " +:+ ip +:+ nl)) ips acc
  = acc +:+ resolv_lines ips.
Proof.
  revert acc. induction ips as [|ip rest IH]; intros acc.
  - simpl. by rewrite append_empty_r.
  - cbn [fold_left]. rewrite IH.
    change (resolv_lines (ip :: rest))
      with ("nameserver " +:+ ip +:+ nl +:+ resolv_lines rest).
    by rewrite !append_assoc.
Qed.

Lemma buildContent_lines (ips : list string) : buildContent ips = resolv_lines ips.
Proof. unfold buildContent. by rewrite buildContent_from. Qed.

(** [os.WriteFile] when the oracle lets the call through. *)
Lemma os_WriteFile_ok (path data : string) (w : World) :
  next_fault w = NoFault →
  os_WriteFile path data w = (Ret None, written path data w).
Proof.
  destruct w as [f [|[|e p] fs] t]; intros H; try discriminate H; reflexivity.
Qed.

(** [os.WriteFile] returns [nil] only when the call went through. *)
Lemma os_WriteFile_nil (path data : string) (w w' : World) :
  os_WriteFile path data w = (Ret None, w') →
  next_fault w = NoFault ∧ w' = written path data w.
Proof.
  destruct w as [f [|[|e [n|]] fs] t]; intros H; inversion H; split; reflexivity.
Qed.

(** [os.WriteFile] always returns, having recorded exactly one effect. *)
Lemma os_WriteFile_returns (path data : string) (w : World) :
  ∃ err w', os_WriteFile path data w = (Ret err, w')
            ∧ trace w' = SysWriteFile path data :: trace w.
Proof.
  destruct w as [f [|[|e [n|]] fs] t]; eexists _, _; split; reflexivity.
Qed.

Lemma setDNS_ok (ips : list string) (w : World) :
  next_fault w = NoFault →
  setDNS ips w = (Ret None, written resolvConfPath (resolv_lines ips) w).
Proof.
  intros H. unfold setDNS. rewrite buildContent_lines. by apply os_WriteFile_ok.
Qed.

Lemma setDNS_nil (ips : list string) (w w' : World) :
  setDNS ips w = (Ret None, w') →
  next_fault w = NoFault ∧ w' = written resolvConfPath (resolv_lines ips) w.
Proof.
  unfold setDNS. rewrite buildContent_lines. apply os_WriteFile_nil.
Qed.

(** C1. For every profile present in the loaded configuration, applying
    it with [setDNS] (the write going through) returns [nil] and leaves
    the resolver file holding exactly the lines [nameserver <ip>], one
    per address in the profile's order, each terminated by a newline;
    no other file changes and the write is the only effect. *)
Theorem setDNS_writes_profile
    (config : Config) (name : string) (ips : list string) (w : World) :
  DNS config !! name = Some ips →
  next_fault w = NoFault →
  setDNS (index2 (DNS config) name).1 w
  = (Ret None,
     mkWorld (<[resolvConfPath := resolv_lines ips]> (files w))
             (tail (faults w))
             (SysWriteFile resolvConfPath (resolv_lines ips) :: trace w)).
Proof.
  intros Hname Hok. unfold index2. rewrite Hname. simpl.
  by rewrite setDNS_ok.
Qed.

Lemma setDNS_writes_profile_witness :
  setDNS (index2 (DNS Demo.config) "cloudflare").1 Demo.fresh
  = (Ret None,
     mkWorld (<[resolvConfPath := resolv_lines ["1.1.1.1"; "1.0.0.1"]]> (files Demo.fresh))
             (tail (faults Demo.fresh))
             (SysWriteFile resolvConfPath (resolv_lines ["1.1.1.1"; "1.0.0.1"])
                :: trace Demo.fresh)).
Proof.
  apply (setDNS_writes_profile Demo.config "cloudflare" ["1.1.1.1"; "1.0.0.1"] Demo.fresh).
  - vm_compute. reflexivity.
  - reflexivity.
Defined.

(** C9. Applying the same address list twice, both writes going through,
    leaves the same bytes in the resolver file after each application:
    the second application changes no file at all, and whatever world a
    successful application starts from, the content it leaves is the
    same function of the list. *)
Theorem setDNS_idempotent (ips : list string) (w w1 w2 : World) :
  setDNS ips w = (Ret None, w1) →
  setDNS ips w1 = (Ret None, w2) →
  files w1 !! resolvConfPath = Some (buildContent ips)
  ∧ files w2 !! resolvConfPath = Some (buildContent ips)
  ∧ files w2 = files w1
  ∧ ∀ v v', setDNS ips v = (Ret None, v') →
            files v' !! resolvConfPath = files w1 !! resolvConfPath.
Proof.
  intros H1 H2.
  apply setDNS_nil in H1 as [_ ->]. apply setDNS_nil in H2 as [_ ->].
  rewrite buildContent_lines. simpl.
  repeat split.
  - apply lookup_insert_eq.
  - apply lookup_insert_eq.
  - apply insert_insert_eq.
  - intros v v' Hv. apply setDNS_nil in Hv as [_ ->]. simpl.
    by rewrite !lookup_insert_eq.
Qed.

Lemma setDNS_idempotent_witness :
  files (written resolvConfPath (resolv_lines ["127.0.0.1"]) Demo.fresh)
    !! resolvConfPath
  = Some (buildContent ["127.0.0.1"]).
Proof.
  apply (setDNS_idempotent ["127.0.0.1"] Demo.fresh
           (written resolvConfPath (resolv_lines ["127.0.0.1"]) Demo.fresh)
           (written resolvConfPath (resolv_lines ["127.0.0.1"])
              (written resolvConfPath (resolv_lines ["127.0.0.1"]) Demo.fresh))).
  - vm_compute. reflexivity.
  - vm_compute. reflexivity.
Defined.

(** C10. [setDNS] on an empty (or nil) list is not rejected: when the
    write goes through it returns [nil] and the resolver file is left
    with zero bytes, whatever it held before. *)
Theorem setDNS_empty_truncates (w : World) :
  next_fault w = NoFault →
  ∃ w', setDNS [] w = (Ret None, w')
        ∧ files w' !! resolvConfPath = Some ""
        ∧ all_writes (trace w') = (resolvConfPath, "") :: all_writes (trace w).
Proof.
  intros H. exists (written resolvConfPath "" w).
  split; [by apply (setDNS_ok [])|].
  simpl. rewrite lookup_insert_eq. done.
Qed.

Lemma setDNS_empty_truncates_witness :
  ∃ w', setDNS [] Demo.restarted = (Ret None, w')
        ∧ files w' !! resolvConfPath = Some ""
        ∧ all_writes (trace w') = (resolvConfPath, "") :: all_writes (trace Demo.restarted).
Proof. apply (setDNS_empty_truncates Demo.restarted). reflexivity. Defined.

(** ** The last-selection store *)

(** [saveLastDNS] returns [nil] only when the record file holds the name. *)
Lemma saveLastDNS_nil (name : string) (w w1 : World) :
  saveLastDNS name w = (Ret None, w1) →
  files w1 = <[lastDNSFilePath := name]> (files w).
Proof.
  destruct w as [f [|[|e p] [|[|e' [n|]] fs]] t]; intros H; inversion H; reflexivity.
Qed.

(** [saveLastDNS] when neither of its two calls fails. *)
Lemma saveLastDNS_ok (name : string) (w : World) :
  next_fault w = NoFault →
  hd NoFault (tail (faults w)) = NoFault →
  saveLastDNS name w
  = (Ret None,
     mkWorld (<[lastDNSFilePath := name]> (files w))
             (tail (tail (faults w)))
             (SysWriteFile lastDNSFilePath name
                :: SysMkdirAll "/var/lib/dnsmng" :: trace w)).
Proof.
  destruct w as [f [|[|e p] [|[|e' [n|]] fs]] t]; intros H1 H2;
    try discriminate H1; try discriminate H2; reflexivity.
Qed.

(** [readLastDNS] returns a [nil] error only with the content of the
    record file. *)
Lemma readLastDNS_nil (s : string) (w w' : World) :
  readLastDNS w = (Ret (s, None), w') →
  files w !! lastDNSFilePath = Some s.
Proof.
  unfold readLastDNS, os_ReadFile, bind, perform, nextFault.
  destruct w as [f [|[|e p] fs] t]; simpl;
    try (destruct (f !! lastDNSFilePath) eqn:E; simpl);
    intros H; inversion H; reflexivity.
Qed.

(** A failed [readLastDNS] hands back the empty string. *)
Lemma readLastDNS_err (s : string) (e : error) (w w' : World) :
  readLastDNS w = (Ret (s, Some e), w') → s = "".
Proof.
  unfold readLastDNS, os_ReadFile, bind, perform, nextFault.
  destruct w as [f [|[|e0 p] fs] t]; simpl;
    try (destruct (f !! lastDNSFilePath) eqn:E; simpl);
    intros H; inversion H; reflexivity.
Qed.

(** [readLastDNS] always returns, touching no file. *)
Lemma readLastDNS_returns (w : World) :
  ∃ s err w', readLastDNS w = (Ret (s, err), w')
              ∧ files w' = files w
              ∧ trace w' = SysReadFile lastDNSFilePath :: trace w.
Proof.
  unfold readLastDNS, os_ReadFile, bind, perform, nextFault.
  destruct w as [f [|[|e0 p] fs] t]; simpl;
    try (destruct (f !! lastDNSFilePath) eqn:E; simpl);
    eexists _, _, _; (split; [reflexivity | split; reflexivity]).
Qed.

(** Round trip on any string at all, stated on the values returned. *)
Lemma save_read_any (name s : string) (w w1 w2 : World) :
  saveLastDNS name w = (Ret None, w1) →
  readLastDNS w1 = (Ret (s, None), w2) →
  s = name.
Proof.
  intros Hs Hr. apply saveLastDNS_nil in Hs. apply readLastDNS_nil in Hr.
  rewrite Hs, lookup_insert_eq in Hr. congruence.
Qed.

(** [readLastDNS] when the record file is there and the call goes
    through. *)
Lemma readLastDNS_ok (s : string) (w : World) :
  files w !! lastDNSFilePath = Some s →
  next_fault w = NoFault →
  readLastDNS w
  = (Ret (s, None), after_call (SysReadFile lastDNSFilePath) (files w) w).
Proof.
  unfold readLastDNS, os_ReadFile, bind, perform, nextFault.
  destruct w as [f [|[|e p] fs] t]; simpl; intros Hs Hok;
    try discriminate Hok; by rewrite Hs.
Qed.

(** C8. For every non-empty name without control characters, when
    [saveLastDNS name] has succeeded and the read that follows goes
    through, [readLastDNS] returns exactly [name] and a [nil] error.
    (Neither restriction on the name is used: the store keeps raw
    bytes.) *)
Theorem save_read_roundtrip (name : string) (w w1 : World) :
  name ≠ "" →
  no_control name = true →
  saveLastDNS name w = (Ret None, w1) →
  next_fault w1 = NoFault →
  readLastDNS w1
  = (Ret (name, None), after_call (SysReadFile lastDNSFilePath) (files w1) w1).
Proof.
  intros _ _ Hsave Hok. apply saveLastDNS_nil in Hsave.
  apply readLastDNS_ok; [|exact Hok].
  rewrite Hsave. apply lookup_insert_eq.
Qed.

Lemma save_read_roundtrip_witness :
  readLastDNS (saveLastDNS "cloudflare" Demo.fresh).2
  = (Ret ("cloudflare", None),
     after_call (SysReadFile lastDNSFilePath)
                (files (saveLastDNS "cloudflare" Demo.fresh).2)
                (saveLastDNS "cloudflare" Demo.fresh).2).
Proof.
  apply (save_read_roundtrip "cloudflare" Demo.fresh
           (saveLastDNS "cloudflare" Demo.fresh).2).
  - discriminate.
  - reflexivity.
  - vm_compute. reflexivity.
  - reflexivity.
Defined.

(** ** Sequencing *)

Lemma bind_ret {A B} (m : IO A) (k : A → IO B) (w w' : World) (a : A) :
  m w = (Ret a, w') → bind m k w = k a w'.
Proof. intros H. unfold bind. by rewrite H. Qed.

Lemma bind_exit {A B} (m : IO A) (k : A → IO B) (w w' : World) (c : Z) :
  m w = (Exit c, w') → bind m k w = (Exit c, w').
Proof. intros H. unfold bind. by rewrite H. Qed.

(** ** Startup *)

Section StartupFacts.

Variable yaml_Unmarshal : string → Config → Config * option error.

(** Loading the configuration writes nothing. *)
Lemma readConfig_reads_only (filePath : string) (w w1 : World) r :
  readConfig yaml_Unmarshal filePath w = (r, w1) →
  files w1 = files w ∧ trace w1 = SysReadFile filePath :: trace w.
Proof.
  unfold readConfig, os_ReadFile, bind, perform, nextFault.
  destruct w as [f [|[|e p] fs] t]; simpl;
    try (destruct (f !! filePath) as [data|] eqn:E; simpl;
         try destruct (yaml_Unmarshal data _) as [c [e|]]);
    intros H; inversion H; split; reflexivity.
Qed.

(** [main] once the configuration is loaded. *)
Lemma main_loaded (configPath domain : string) (w w1 : World) (config : Config) :
  readConfig yaml_Unmarshal configPath w = (Ret (Some config, None), w1) →
  main yaml_Unmarshal configPath domain w
  = (let* _ := if negb (String.eqb domain "")
               then main_set config domain
               else main_restore config in
     let* dnsIPs := main_watched config domain in
     watchResolvConf dnsIPs) w1.
Proof. intros H. unfold main. by rewrite (bind_ret _ _ _ _ _ H). Qed.

(** C3. When [--set] names a profile that the loaded configuration
    does not have, the process exits with status 1 having written
    neither the resolver file nor the last-selection file: no file has
    changed and no write was attempted; all it did after loading the
    configuration is log the missing name. *)
Theorem unknown_selection_exits
    (configPath domain : string) (config : Config) (w w1 : World) :
  domain ≠ "" →
  readConfig yaml_Unmarshal configPath w = (Ret (Some config, None), w1) →
  DNS config !! domain = None →
  ∃ w', main yaml_Unmarshal configPath domain w = (Exit 1, w')
        ∧ files w' = files w
        ∧ all_writes (trace w') = all_writes (trace w)
        ∧ trace w' = Log ("DNS entry for '" +:+ domain +:+ "' not found in config" +:+ nl)
                       :: SysReadFile configPath :: trace w.
Proof.
  intros Hne Hcfg Hmiss.
  rewrite (main_loaded _ _ _ _ _ Hcfg).
  apply String.eqb_neq in Hne. 
  apply readConfig_reads_only in Hcfg as [Hf Ht].
  eexists. split.
  - unfold bind at 1. rewrite Hne. simpl.
    unfold main_set, index2. rewrite Hmiss. simpl. reflexivity.
  - simpl. rewrite Hf, Ht. done.
Qed.

(** The name the restore branch goes on with, by cases on what
    [readLastDNS] returned. *)
Lemma main_lastDNS_cases (w w2 : World) (s : string) (err : option error) :
  readLastDNS w = (Ret (s, err), w2) →
  main_lastDNS w
  = if not_nil err || String.eqb s ""
    then (Ret "local",
          emit (Log ("No previous DNS set or file missing, defaulting to 'local' DNS" +:+ nl)) w2)
    else (Ret s, w2).
Proof.
  intros H. unfold main_lastDNS. rewrite (bind_ret _ _ _ _ _ H). simpl.
  destruct (not_nil err || String.eqb s ""); reflexivity.
Qed.

(** What [readLastDNS] leaves behind, whatever it returns. *)
Lemma readLastDNS_reads_only (w w2 : World) r :
  readLastDNS w = (r, w2) →
  files w2 = files w
  ∧ trace w2 = SysReadFile lastDNSFilePath :: trace w
  ∧ (faults w = [] → faults w2 = []).
Proof.
  intros H. destruct (readLastDNS_returns w) as (s & e & w' & Heq & Hf & Ht).
  rewrite H in Heq. inversion Heq; subst. repeat split; try done.
  intros Hnil. revert H. unfold readLastDNS, os_ReadFile, bind, perform, nextFault.
  destruct w as [f fs t]. simpl in Hnil. subst fs. simpl.
  destruct (f !! lastDNSFilePath); simpl; intros H; by inversion H.
Qed.

(** The restore branch when the name is configured and the write goes
    through. *)
Lemma main_restore_ok (config : Config) (name : string) (ips : list string)
    (w w3 : World) :
  main_lastDNS w = (Ret name, w3) →
  DNS config !! name = Some ips →
  next_fault w3 = NoFault →
  main_restore config w
  = (Ret tt, emit (Log ("Restored last DNS: " +:+ name +:+ nl))
                  (written resolvConfPath (resolv_lines ips) w3)).
Proof.
  intros Hname Hips Hok. unfold main_restore.
  rewrite (bind_ret _ _ _ _ _ Hname). unfold index2. rewrite Hips. simpl.
  unfold bind at 1. simpl.
  by rewrite (bind_ret _ _ _ _ _ (setDNS_ok ips w3 Hok)).
Qed.

(** The restore branch when the name is not configured. *)
Lemma main_restore_missing (config : Config) (name : string) (w w3 : World) :
  main_lastDNS w = (Ret name, w3) →
  DNS config !! name = None →
  main_restore config w
  = (Exit 1, emit (Log ("DNS entry for '" +:+ name +:+ "' not found in config" +:+ nl)) w3).
Proof.
  intros Hname Hmiss. unfold main_restore.
  rewrite (bind_ret _ _ _ _ _ Hname). unfold index2. by rewrite Hmiss.
Qed.

(** The second resolution always returns, and only reads. *)
Lemma main_watched_returns (config : Config) (domain : string) (w : World) :
  ∃ l w', main_watched config domain w = (Ret l, w')
          ∧ files w' = files w
          ∧ (faults w = [] → faults w' = [])
          ∧ ∃ t, trace w' = t ++ trace w.
Proof.
  unfold main_watched, index2.
  destruct (DNS config !! domain) as [ips|]; simpl.
  - exists ips, w. repeat split; try done. by exists [].
  - destruct (readLastDNS w) as [[[s e]| |] w'] eqn:E.
    + destruct (readLastDNS_reads_only _ _ _ E) as (Hf & Ht & Hn).
      eexists _, w'. rewrite (bind_ret _ _ _ _ _ E). repeat split; try done.
      by exists [SysReadFile lastDNSFilePath].
    + destruct (readLastDNS_returns w) as (? & ? & ? & Heq & _). congruence.
    + destruct (readLastDNS_returns w) as (? & ? & ? & Heq & _). congruence.
Qed.

(** The subscription when nothing fails. *)
Lemma watchResolvConf_ok (l : list string) (w : World) :
  faults w = [] →
  watchResolvConf l w
  = (Parked l, mkWorld (files w) []
                       (SysWatchAdd resolvConfPath :: SysNewWatcher :: trace w)).
Proof. destruct w as [f fs t]. simpl. intros ->. reflexivity. Qed.

(** With [--set], the name configured and no call failing, the list
    handed to [watchResolvConf] is the list just written. *)
Lemma explicit_selection_watches_written
    (configPath domain : string) (config : Config) (ips : list string)
    (w w1 : World) :
  domain ≠ "" →
  readConfig yaml_Unmarshal configPath w = (Ret (Some config, None), w1) →
  DNS config !! domain = Some ips →
  faults w1 = [] →
  ∃ w', main yaml_Unmarshal configPath domain w = (Parked ips, w')
        ∧ all_writes (trace w')
          = (lastDNSFilePath, domain) :: (resolvConfPath, buildContent ips)
              :: all_writes (trace w).
Proof.
  intros Hne Hcfg Hips Hnil.
  destruct (readConfig_reads_only _ _ _ _ Hcfg) as [_ Ht].
  rewrite (main_loaded _ _ _ _ _ Hcfg).
  apply String.eqb_neq in Hne. unfold bind at 1. rewrite Hne. simpl.
  unfold main_set, main_watched, index2. rewrite Hips. simpl.
  destruct w1 as [f fs t]. simpl in Hnil, Ht. subst fs t.
  eexists. split; [reflexivity|]. reflexivity.
Qed.

(** [readLastDNS] on a machine without the record file. *)
Lemma readLastDNS_missing (w : World) :
  files w !! lastDNSFilePath = None →
  faults w = [] →
  readLastDNS w
  = (Ret ("", Some (ENOENT lastDNSFilePath)), emit (SysReadFile lastDNSFilePath) w).
Proof.
  destruct w as [f fs t]. simpl. intros Hnone ->.
  unfold readLastDNS, os_ReadFile, bind, perform, nextFault. simpl.
  by rewrite Hnone.
Qed.

(** Without [--set] and without a last-selection file, on any
    configuration that has ["local"] and no profile with the empty
    name: the addresses of ["local"] are written and the empty list is
    handed to [watchResolvConf]. *)
Lemma default_restore_watches_nil
    (configPath : string) (config : Config) (ips : list string) (w w1 : World) :
  readConfig yaml_Unmarshal configPath w = (Ret (Some config, None), w1) →
  files w1 !! lastDNSFilePath = None →
  faults w1 = [] →
  DNS config !! "local" = Some ips →
  DNS config !! "" = None →
  ∃ w', main yaml_Unmarshal configPath "" w = (Parked [], w')
        ∧ all_writes (trace w')
          = (resolvConfPath, buildContent ips) :: all_writes (trace w).
Proof.
  intros Hcfg Hnone Hnil Hlocal Hempty.
  destruct (readConfig_reads_only _ _ _ _ Hcfg) as [_ Ht].
  rewrite (main_loaded _ _ _ _ _ Hcfg). simpl.
  pose proof (main_lastDNS_cases _ _ _ _ (readLastDNS_missing w1 Hnone Hnil)) as Hname.
  simpl in Hname.
  erewrite (bind_ret (main_restore config)); cycle 1.
  { apply (main_restore_ok _ _ _ _ _ Hname Hlocal).
    unfold next_fault. simpl. by rewrite Hnil. }
  unfold main_watched, index2, index1, index2. rewrite Hempty. simpl.
  unfold bind at 1 2. rewrite readLastDNS_missing; simpl;
    [ | by rewrite lookup_insert_ne | by rewrite Hnil ].
  rewrite Hempty. simpl.
  rewrite watchResolvConf_ok by (simpl; by rewrite Hnil).
  eexists. split; [reflexivity|]. simpl. rewrite buildContent_lines, Ht. done.
Qed.

(** C4. Without [--set]: when [readLastDNS] fails or returns the empty
    string the restore branch goes on with the name ["local"], and
    otherwise with the name read; that name is looked up in the
    configuration, and when it is missing the process exits with
    status 1, naming it, without another fallback and without writing
    any file; when it is there its addresses are what gets applied. *)
Theorem restore_resolves_name
    (configPath : string) (config : Config) (w w1 w2 : World)
    (s : string) (err : option error) :
  readConfig yaml_Unmarshal configPath w = (Ret (Some config, None), w1) →
  readLastDNS w1 = (Ret (s, err), w2) →
  ∃ name w3,
    main_lastDNS w1 = (Ret name, w3)
    ∧ files w3 = files w
    ∧ (err ≠ None ∨ s = "" → name = "local")
    ∧ (err = None → s ≠ "" → name = s)
    ∧ (DNS config !! name = None →
         ∃ w', main yaml_Unmarshal configPath "" w = (Exit 1, w')
               ∧ files w' = files w
               ∧ all_writes (trace w') = all_writes (trace w)
               ∧ head (trace w')
                 = Some (Log ("DNS entry for '" +:+ name +:+ "' not found in config" +:+ nl)))
    ∧ (∀ ips, DNS config !! name = Some ips →
         next_fault w3 = NoFault →
         main_restore config w1
         = (Ret tt, emit (Log ("Restored last DNS: " +:+ name +:+ nl))
                         (written resolvConfPath (resolv_lines ips) w3))).
Proof.
  intros Hcfg Hread.
  pose proof (main_lastDNS_cases _ _ _ _ Hread) as Hname.
  destruct (readConfig_reads_only _ _ _ _ Hcfg) as [Hf1 Ht1].
  destruct (readLastDNS_reads_only _ _ _ Hread) as (Hf2 & Ht2 & _).
  set (name := if not_nil err || String.eqb s "" then "local" else s).
  set (w3 := if not_nil err || String.eqb s ""
             then emit (Log ("No previous DNS set or file missing, defaulting to 'local' DNS" +:+ nl)) w2
             else w2).
  assert (Hn : main_lastDNS w1 = (Ret name, w3)).
  { rewrite Hname. unfold name, w3. by destruct (not_nil err || String.eqb s ""). }
  assert (Hf3 : files w3 = files w).
  { unfold w3. destruct (not_nil err || String.eqb s ""); simpl; congruence. }
  assert (Ht3 : all_writes (trace w3) = all_writes (trace w)).
  { unfold w3. destruct (not_nil err || String.eqb s ""); simpl;
      rewrite Ht2; simpl; by rewrite Ht1. }
  exists name, w3. split; [exact Hn|]. split; [exact Hf3|].
  split; [|split; [|split]].
  - unfold name. intros [He | ->].
    + destruct err; [reflexivity | done].
    + by rewrite orb_true_r.
  - unfold name. intros -> Hs. apply String.eqb_neq in Hs. by rewrite Hs.
  - intros Hmiss. eexists.
    rewrite (main_loaded _ _ _ _ _ Hcfg). simpl.
    rewrite (bind_exit _ _ _ _ _ (main_restore_missing _ _ _ _ Hn Hmiss)).
    split; [reflexivity|]. simpl. done.
  - intros ips Hips Hok. by apply main_restore_ok.
Qed.

(** C5. A failure of the last-selection store ends the process exactly
    in the branch of an explicit selection: there a failing
    [saveLastDNS] is followed by exit status 1; without [--set] a
    failing [readLastDNS] is logged, the name ["local"] is assumed, and
    with that profile configured and nothing else failing the process
    reaches the watch phase with the resolver file holding the
    addresses of ["local"]. *)
Theorem persistence_error_fatal_only_when_explicit
    (configPath : string) (config : Config) (w w1 : World) :
  readConfig yaml_Unmarshal configPath w = (Ret (Some config, None), w1) →
  (∀ domain ips w2 e w3,
      domain ≠ "" →
      DNS config !! domain = Some ips →
      setDNS ips w1 = (Ret None, w2) →
      saveLastDNS domain w2 = (Ret (Some e), w3) →
      main yaml_Unmarshal configPath domain w
      = (Exit 1, emit (Log ("Error saving last DNS: " +:+ e +:+ nl)) w3))
  ∧ (∀ s e w2,
      readLastDNS w1 = (Ret (s, Some e), w2) →
      main_lastDNS w1
      = (Ret "local",
         emit (Log ("No previous DNS set or file missing, defaulting to 'local' DNS" +:+ nl)) w2)
      ∧ ∀ ips,
          DNS config !! "local" = Some ips →
          faults w2 = [] →
          ∃ l w', main yaml_Unmarshal configPath "" w = (Parked l, w')
                  ∧ files w' !! resolvConfPath = Some (resolv_lines ips)
                  ∧ In (Log ("No previous DNS set or file missing, defaulting to 'local' DNS" +:+ nl))
                       (trace w')).
Proof.
  intros Hcfg. split.
  - intros domain ips w2 e w3 Hne Hips Hset Hsave.
    rewrite (main_loaded _ _ _ _ _ Hcfg).
    apply String.eqb_neq in Hne. unfold bind at 1. rewrite Hne. simpl.
    unfold main_set, index2. rewrite Hips. simpl.
    unfold bind at 1. simpl.
    rewrite (bind_ret _ _ _ _ _ Hset). unfold bind at 1. simpl.
    by rewrite (bind_ret _ _ _ _ _ Hsave).
  - intros s e w2 Hread.
    pose proof (main_lastDNS_cases _ _ _ _ Hread) as Hname. simpl in Hname.
    split; [exact Hname|].
    intros ips Hips Hnil.
    rewrite (main_loaded _ _ _ _ _ Hcfg). simpl.
    assert (Hok : next_fault
              (emit (Log ("No previous DNS set or file missing, defaulting to 'local' DNS" +:+ nl)) w2)
            = NoFault).
    { unfold next_fault. simpl. by rewrite Hnil. }
    rewrite (bind_ret _ _ _ _ _ (main_restore_ok _ _ _ _ _ Hname Hips Hok)).
    match goal with |- context [bind (main_watched config "") _ ?v] =>
      destruct (main_watched_returns config "" v) as (l & w5 & Hw & Hf & Hn & t & Ht)
    end.
    rewrite (bind_ret _ _ _ _ _ Hw).
    rewrite watchResolvConf_ok by (apply Hn; simpl; by rewrite Hnil).
    eexists _, _. split; [reflexivity|]. simpl. split.
    + rewrite Hf. simpl. apply lookup_insert_eq.
    + right. right. rewrite Ht. apply in_or_app. right. simpl. auto.
Qed.

End StartupFacts.

Lemma unknown_selection_exits_witness :
  ∃ w', main Demo.yaml_Unmarshal Demo.configPath "google" Demo.fresh = (Exit 1, w')
        ∧ files w' = files Demo.fresh
        ∧ all_writes (trace w') = all_writes (trace Demo.fresh)
        ∧ trace w' = Log ("DNS entry for '" +:+ "google" +:+ "' not found in config" +:+ nl)
                       :: SysReadFile Demo.configPath :: trace Demo.fresh.
Proof.
  apply (unknown_selection_exits Demo.yaml_Unmarshal Demo.configPath "google"
           Demo.config Demo.fresh
           (readConfig Demo.yaml_Unmarshal Demo.configPath Demo.fresh).2).
  - discriminate.
  - vm_compute. reflexivity.
  - vm_compute. reflexivity.
Defined.

Lemma restore_resolves_name_witness :
  ∃ w', main Demo.yaml_Unmarshal Demo.configPath "" Demo.stale = (Exit 1, w')
        ∧ files w' = files Demo.stale
        ∧ all_writes (trace w') = all_writes (trace Demo.stale)
        ∧ head (trace w')
          = Some (Log ("DNS entry for '" +:+ "google" +:+ "' not found in config" +:+ nl)).
Proof.
  destruct (restore_resolves_name Demo.yaml_Unmarshal Demo.configPath Demo.config
              Demo.stale
              (readConfig Demo.yaml_Unmarshal Demo.configPath Demo.stale).2
              (readLastDNS (readConfig Demo.yaml_Unmarshal Demo.configPath Demo.stale).2).2
              "google" None)
    as (name & w3 & _ & _ & _ & Hkeep & Hmiss & _).
  - vm_compute. reflexivity.
  - vm_compute. reflexivity.
  - rewrite (Hkeep eq_refl) in Hmiss by discriminate.
    apply Hmiss. vm_compute. reflexivity.
Defined.

Lemma persistence_error_fatal_only_when_explicit_witness :
  (main Demo.yaml_Unmarshal Demo.configPath "cloudflare" Demo.third_call_fails).1 = Exit 1
  ∧ ∃ l w', main Demo.yaml_Unmarshal Demo.configPath "" Demo.fresh = (Parked l, w')
            ∧ files w' !! resolvConfPath = Some (resolv_lines ["127.0.0.1"])
            ∧ In (Log ("No previous DNS set or file missing, defaulting to 'local' DNS" +:+ nl))
                 (trace w').
Proof.
  split.
  - pose (w1 := (readConfig Demo.yaml_Unmarshal Demo.configPath Demo.third_call_fails).2).
    pose (w2 := (setDNS ["1.1.1.1"; "1.0.0.1"] w1).2).
    pose (w3 := (saveLastDNS "cloudflare" w2).2).
    destruct (persistence_error_fatal_only_when_explicit Demo.yaml_Unmarshal
                Demo.configPath Demo.config Demo.third_call_fails w1) as [Hset _].
    + vm_compute. reflexivity.
    + rewrite (Hset "cloudflare" ["1.1.1.1"; "1.0.0.1"] w2
                 "mkdir /var/lib/dnsmng: permission denied" w3).
      * reflexivity.
      * discriminate.
      * vm_compute. reflexivity.
      * vm_compute. reflexivity.
      * vm_compute. reflexivity.
  - pose (w1 := (readConfig Demo.yaml_Unmarshal Demo.configPath Demo.fresh).2).
    destruct (persistence_error_fatal_only_when_explicit Demo.yaml_Unmarshal
                Demo.configPath Demo.config Demo.fresh w1) as [_ Hrestore].
    + vm_compute. reflexivity.
    + destruct (Hrestore "" (ENOENT lastDNSFilePath) (readLastDNS w1).2) as [_ Hpark].
      * vm_compute. reflexivity.
      * apply Hpark; vm_compute; reflexivity.
Defined.

(** C2 (the code departs from it). Configuration [{local: [127.0.0.1],
    cloudflare: [...]}], no [--set], no last-selection file: the restore
    branch writes the addresses of ["local"] to the resolver file, and
    [main] then hands [watchResolvConf] the empty list, because the
    second resolution reads the missing record again and looks up the
    empty name without the default.  On the first write event the watch
    task therefore empties the resolver file. *)
Theorem default_restore_watches_empty_list :
  let r := main Demo.yaml_Unmarshal Demo.configPath "" Demo.fresh in
  r.1 = Parked []
  ∧ all_writes (trace r.2) = [(resolvConfPath, "nameserver 127.0.0.1" +:+ nl)]
  ∧ files r.2 !! resolvConfPath = Some ("nameserver 127.0.0.1" +:+ nl)
  ∧ index1 (DNS Demo.config) "local" = ["127.0.0.1"]
  ∧ files (loop_body Demo.Write [] (MEvent (mkEvent resolvConfPath Demo.Write) true) r.2).2
      !! resolvConfPath = Some "".
Proof. vm_compute. repeat split; reflexivity. Qed.

(** ** The watch task *)

Section WatchFacts.

Variable fsnotify_Write : Z.
Variable dnsIPs : list string.

(** An iteration always completes; it returns from the task exactly
    when the receive reported a closed channel, and its only system
    call is one write of the serialised list to the resolver file,
    made exactly on a delivered write-class event. *)
Lemma loop_body_returns (m : Msg) (w : World) :
  ∃ c w', loop_body fsnotify_Write dnsIPs m w = (Ret c, w')
          ∧ (c = Return ↔ delivered m = false)
          ∧ syscalls (trace w')
            = repeat (SysWriteFile resolvConfPath (buildContent dnsIPs))
                     (if is_write_msg fsnotify_Write m then 1 else 0)
                ++ syscalls (trace w).
Proof.
  destruct m as [event [|] | err [|]]; simpl.
  - destruct (is_write fsnotify_Write event); simpl.
    + destruct w as [f [|[|e [n|]] fs] t];
        (eexists _, _; split; [reflexivity|]; split; [done | reflexivity]).
    + eexists _, _. split; [reflexivity|]. split; [done | reflexivity].
  - eexists _, _. split; [reflexivity|]. split; [done | reflexivity].
  - eexists _, _. split; [reflexivity|]. split; [done | reflexivity].
  - eexists _, _. split; [reflexivity|]. split; [done | reflexivity].
Qed.

(** The restoration on a delivered write-class event, whatever the
    file holds and whatever becomes of the write. *)
Lemma loop_body_write_event (event : Event) (w : World) :
  is_write fsnotify_Write event = true →
  ∃ w', loop_body fsnotify_Write dnsIPs (MEvent event true) w = (Ret Continue, w')
        ∧ syscalls (trace w')
          = SysWriteFile resolvConfPath (buildContent dnsIPs) :: syscalls (trace w)
        ∧ (next_fault w = NoFault →
           files w' = <[resolvConfPath := resolv_lines dnsIPs]> (files w)).
Proof.
  intros Hw. simpl. rewrite Hw.
  destruct w as [f [|[|e [n|]] fs] t];
    (eexists; split; [reflexivity|]; split; [reflexivity|]);
    intros Hok; try discriminate Hok; simpl; by rewrite buildContent_lines.
Qed.

Lemma step_writes (s s' : TaskState) (m : Msg) (c : Ctl) :
  step fsnotify_Write dnsIPs s m c s' →
  (c = Return ↔ delivered m = false)
  ∧ syscalls (trace s'.2)
    = repeat (SysWriteFile resolvConfPath (buildContent dnsIPs))
             (if is_write_msg fsnotify_Write m then 1 else 0)
        ++ syscalls (trace s.2).
Proof.
  intros Hstep. inversion Hstep as [pick wt wt' m' w w' c' Hsel Hbody]; subst.
  destruct (loop_body_returns m w) as (c0 & w0 & Heq & Hc & Hw).
  rewrite Hbody in Heq. inversion Heq; subst. by split.
Qed.


(** Runs exist for every sequence of delivered messages, from every
    state: the statement below is about something. *)
Lemma run_exists (ms : list Msg) (s : TaskState) :
  Forall (λ m, delivered m = true) ms →
  ∃ s', run fsnotify_Write dnsIPs s ms Continue s'.
Proof.
  revert s. induction ms as [|m ms IH]; intros [wt w] Hall.
  - eexists. apply run_now.
  - inversion Hall as [|? ? Hm Hms]; subst.
    destruct (loop_body_returns m w) as (c & w' & Heq & Hc & _).
    assert (c = Continue) as ->.
    { destruct c; [reflexivity|]. destruct Hc as [Hc _].
      rewrite (Hc eq_refl) in Hm. discriminate Hm. }
    destruct m as [event ok | err ok]; simpl in Hm; subst ok.
    + destruct (IH (mkWatcher (mkChan [] false) (Errors wt), w') Hms) as [s' Hrun].
      exists s'.
      apply (run_env _ _ _ (mkWatcher (mkChan [event] false) (Errors wt), w));
        [reflexivity|].
      eapply run_iter; [|exact Hrun].
      by apply (step_select _ _ CaseEvents).
    + destruct (IH (mkWatcher (Events wt) (mkChan [] false), w') Hms) as [s' Hrun].
      exists s'.
      apply (run_env _ _ _ (mkWatcher (Events wt) (mkChan [err] false), w));
        [reflexivity|].
      eapply run_iter; [|exact Hrun].
      by apply (step_select _ _ CaseErrors).
Qed.


(** An iteration on a delivered message, in any world and whatever the
    oracle makes of the write: the body returns and asks for the next
    iteration, so the step exists and the task goes on. *)
Lemma delivered_step (pick : Case) (wt wt' : Watcher) (m : Msg) (w : World) :
  select pick wt = Some (m, wt') →
  delivered m = true →
  ∃ w', loop_body fsnotify_Write dnsIPs m w = (Ret Continue, w')
        ∧ step fsnotify_Write dnsIPs (wt, w) m Continue (wt', w')
        ∧ syscalls (trace w')
          = repeat (SysWriteFile resolvConfPath (buildContent dnsIPs))
                   (if is_write_msg fsnotify_Write m then 1 else 0)
              ++ syscalls (trace w).
Proof.
  intros Hsel Hd.
  destruct (loop_body_returns m w) as (c & w' & Heq & Hc & Hw).
  assert (c = Continue) as ->.
  { destruct c; [reflexivity|]. destruct Hc as [Hc _].
    rewrite (Hc eq_refl) in Hd. discriminate Hd. }
  exists w'. split; [exact Heq|]. split; [|exact Hw].
  by apply (step_select _ _ pick).
Qed.


(** C7, as the code has it. An iteration of the watch task returns
    exactly when the receive it selected reported a closed channel;
    that takes one closed and drained channel, the event channel or
    the error channel, whatever the state of the other; and whenever
    the selected receive delivers a value, an event or an error, the
    iteration completes and the task continues. *)
Theorem task_returns_on_either_closure (wt : Watcher) (w : World) :
  (∀ m c wt' w',
      step fsnotify_Write dnsIPs (wt, w) m c (wt', w') →
      (c = Return ↔ delivered m = false)
      ∧ (delivered m = true → c = Continue)
      ∧ (delivered m = false →
         drained (Events wt) = true ∨ drained (Errors wt) = true))
  ∧ (drained (Events wt) = true →
     step fsnotify_Write dnsIPs (wt, w) (MEvent (mkEvent "" 0) false) Return (wt, w))
  ∧ (drained (Errors wt) = true →
     step fsnotify_Write dnsIPs (wt, w) (MError "" false) Return (wt, w))
  ∧ (∀ pick m wt',
      select pick wt = Some (m, wt') →
      delivered m = true →
      ∃ w', loop_body fsnotify_Write dnsIPs m w = (Ret Continue, w')
            ∧ step fsnotify_Write dnsIPs (wt, w) m Continue (wt', w')).
Proof.
  split; [|split; [|split]].
  - intros m c wt' w' Hstep.
    destruct (step_writes _ _ _ _ Hstep) as [Hret _].
    split; [exact Hret|]. split.
    + intros Hd. destruct c; [reflexivity|].
      destruct Hret as [Hret _]. rewrite (Hret eq_refl) in Hd. discriminate Hd.
    + intros Hd.
      inversion Hstep as [pick ? ? ? ? ? ? Hsel _]; subst.
      destruct wt as [[be ce] [br cr]]. unfold drained. simpl.
      destruct pick; simpl in Hsel; unfold recv in Hsel; simpl in Hsel.
      * destruct be as [|x be]; [|inversion Hsel; subst; discriminate Hd].
        destruct ce; [by left | discriminate Hsel].
      * destruct br as [|x br]; [|inversion Hsel; subst; discriminate Hd].
        destruct cr; [by right | discriminate Hsel].
  - intros Hd. apply (step_select _ _ CaseEvents); [|reflexivity].
    destruct wt as [[be ce] cr]. unfold drained in Hd. simpl in Hd.
    destruct be; [|discriminate Hd]. subst ce. reflexivity.
  - intros Hd. apply (step_select _ _ CaseErrors); [|reflexivity].
    destruct wt as [ce [br cr]]. unfold drained in Hd. simpl in Hd.
    destruct br; [|discriminate Hd]. subst cr. reflexivity.
  - intros pick m wt' Hsel Hd.
    destruct (delivered_step pick wt wt' m w Hsel Hd) as (w' & Heq & Hstep & _).
    by exists w'.
Qed.

End WatchFacts.


(** C7, as the specification words it, fails: with the event channel closed and
    the error channel still open, the only receive that is ready reports
    the closure and the task returns. *)
Lemma task_returns_with_errors_open :
  closed (Errors Demo.events_closed) = false
  ∧ select CaseErrors Demo.events_closed = None
  ∧ step Demo.Write ["127.0.0.1"] (Demo.events_closed, Demo.fresh)
         (MEvent (mkEvent "" 0) false) Return (Demo.events_closed, Demo.fresh)
  ∧ ¬ returns_only_when_both_closed Demo.Write ["127.0.0.1"].
Proof.
  assert (Hstep : step Demo.Write ["127.0.0.1"] (Demo.events_closed, Demo.fresh)
                       (MEvent (mkEvent "" 0) false) Return
                       (Demo.events_closed, Demo.fresh)).
  { apply (step_select _ _ CaseEvents); reflexivity. }
  split; [reflexivity|]. split; [reflexivity|]. split; [exact Hstep|].
  intros Hclaim. destruct (Hclaim _ _ _ _ _ Hstep) as [_ Hopen].
  discriminate Hopen.
Qed.

(** With the event channel closed the task returns; with a
    subscription error delivered it logs it and continues. *)
Lemma task_returns_on_either_closure_witness :
  step Demo.Write ["127.0.0.1"] (Demo.events_closed, Demo.fresh)
       (MEvent (mkEvent "" 0) false) Return (Demo.events_closed, Demo.fresh)
  ∧ ∃ w', loop_body Demo.Write ["127.0.0.1"]
            (MError "inotify: queue overflow" true) Demo.tampered
          = (Ret Continue, w')
          ∧ step Demo.Write ["127.0.0.1"] (Cli.one_error, Demo.tampered)
                 (MError "inotify: queue overflow" true) Continue
                 (mkWatcher (mkChan [] false) (mkChan [] false), w').
Proof.
  split.
  - destruct (task_returns_on_either_closure Demo.Write ["127.0.0.1"]
                Demo.events_closed Demo.fresh) as (_ & Hevents & _).
    apply Hevents. reflexivity.
  - destruct (task_returns_on_either_closure Demo.Write ["127.0.0.1"]
                Cli.one_error Demo.tampered) as (_ & _ & _ & Hdelivered).
    apply (Hdelivered CaseErrors); reflexivity.
Defined.

(** ** The scenarios of the specification *)

(** [--set cloudflare] on a fresh machine. *)
Example scenario_set_cloudflare :
  let r := main Demo.yaml_Unmarshal Demo.configPath "cloudflare" Demo.fresh in
  r.1 = Parked ["1.1.1.1"; "1.0.0.1"]
  ∧ files r.2 !! resolvConfPath
    = Some ("nameserver 1.1.1.1" +:+ nl +:+ "nameserver 1.0.0.1" +:+ nl)
  ∧ files r.2 !! lastDNSFilePath = Some "cloudflare".
Proof. vm_compute. repeat split; reflexivity. Qed.

(** A restart without [--set] after that: the resolver file is restored
    and the last-selection file is not written again. *)
Example scenario_restart :
  let r := main Demo.yaml_Unmarshal Demo.configPath "" Demo.restarted in
  r.1 = Parked ["1.1.1.1"; "1.0.0.1"]
  ∧ all_writes (trace r.2)
    = [(resolvConfPath, "nameserver 1.1.1.1" +:+ nl +:+ "nameserver 1.0.0.1" +:+ nl)].
Proof. vm_compute. repeat split; reflexivity. Qed.

(** The resolver file overwritten from outside while the task serves
    the addresses of ["local"]: one iteration puts them back. *)
Example scenario_tamper :
  files (loop_body Demo.Write ["127.0.0.1"]
           (MEvent (mkEvent resolvConfPath Demo.Write) true)
           (set_faults [] Demo.tampered)).2 !! resolvConfPath
  = Some ("nameserver 127.0.0.1" +:+ nl).
Proof. vm_compute. reflexivity. Qed.

(** ** What the functions never do *)

Lemma respects_bind {A B} (R : World → World → Prop) (m : IO A) (k : A → IO B) :
  Transitive R →
  respects R m → (∀ a, respects R (k a)) → respects R (bind m k).
Proof.
  intros HT Hm Hk w r w' H. unfold bind in H.
  destruct (m w) as [[a|c|l] w1] eqn:E.
  - transitivity w1; [by eapply Hm | by eapply Hk].
  - inversion H; subst. by eapply Hm.
  - inversion H; subst. by eapply Hm.
Qed.

Lemma respects_weaken {A} (R R' : World → World → Prop) (m : IO A) :
  (∀ w w', R w w' → R' w w') → respects R m → respects R' m.
Proof. intros HR Hm w r w' H. apply HR. by eapply Hm. Qed.

#[local] Instance same_files_trans : Transitive same_files.
Proof. intros a b c H1 H2. unfold same_files in *. congruence. Qed.

#[local] Instance only_files_trans (P : string → Prop) : Transitive (only_files P).
Proof.
  intros a b c H1 H2 path Hp. rewrite (H2 path Hp). by apply H1.
Qed.

Lemma same_only (P : string → Prop) (w w' : World) :
  same_files w w' → only_files P w w'.
Proof. intros H path _. unfold same_files in H. by rewrite H. Qed.

Lemma only_files_mono (P Q : string → Prop) (w w' : World) :
  (∀ path, P path → Q path) → only_files P w w' → only_files Q w w'.
Proof. intros HPQ H path Hq. apply H. intros Hp. apply Hq. by apply HPQ. Qed.

Lemma perform_same (e : Effect) : respects same_files (perform e).
Proof. intros w r w' H. inversion H. reflexivity. Qed.

Lemma nextFault_same : respects same_files nextFault.
Proof.
  intros [f [|x fs] t] r w' H; inversion H; reflexivity.
Qed.

Lemma ret_same {A} (a : A) : respects same_files (ret a).
Proof. intros w r w' H. inversion H. reflexivity. Qed.

Lemma os_Exit_same {A} (c : Z) : respects same_files (@os_Exit A c).
Proof. intros w r w' H. inversion H. reflexivity. Qed.

Lemma park_same {A} (l : list string) : respects same_files (@park A l).
Proof. intros w r w' H. inversion H. reflexivity. Qed.

Lemma os_ReadFile_same (path : string) : respects same_files (os_ReadFile path).
Proof.
  intros [f [|[|e p] fs] t] r w' H;
    unfold os_ReadFile, bind, perform, nextFault in H; simpl in H;
    try destruct (f !! path); inversion H; reflexivity.
Qed.

Lemma os_MkdirAll_same (path : string) : respects same_files (os_MkdirAll path).
Proof. intros [f [|[|e p] fs] t] r w' H; inversion H; reflexivity. Qed.

Lemma fsnotify_NewWatcher_same : respects same_files fsnotify_NewWatcher.
Proof. intros [f [|[|e p] fs] t] r w' H; inversion H; reflexivity. Qed.

Lemma watcher_Add_same (path : string) : respects same_files (watcher_Add path).
Proof. intros [f [|[|e p] fs] t] r w' H; inversion H; reflexivity. Qed.

Lemma os_WriteFile_only (path data : string) :
  respects (only_files (λ p, p = path)) (os_WriteFile path data).
Proof.
  intros [f [|[|e [n|]] fs] t] r w' H; inversion H; intros p Hp; simpl;
    try reflexivity; by rewrite lookup_insert_ne.
Qed.

Lemma log_Fatalf_same {A} (text : string) : respects same_files (@log_Fatalf A text).
Proof. intros w r w' H. inversion H. reflexivity. Qed.

Lemma log_Fatal_same {A} (e : error) : respects same_files (@log_Fatal A e).
Proof. intros w r w' H. inversion H. reflexivity. Qed.

Lemma setDNS_only (ips : list string) :
  respects (only_files (λ p, p = resolvConfPath)) (setDNS ips).
Proof. apply os_WriteFile_only. Qed.

Lemma readLastDNS_same : respects same_files readLastDNS.
Proof. intros w r w' H. by destruct (readLastDNS_reads_only _ _ _ H). Qed.

Lemma saveLastDNS_only (name : string) :
  respects (only_files (λ p, p = lastDNSFilePath)) (saveLastDNS name).
Proof.
  unfold saveLastDNS. apply respects_bind; [apply _ | |].
  - eapply respects_weaken; [apply same_only | apply os_MkdirAll_same].
  - intros [e|]; [|apply os_WriteFile_only].
    eapply respects_weaken; [apply same_only | apply ret_same].
Qed.

Lemma watchResolvConf_same (l : list string) : respects same_files (watchResolvConf l).
Proof.
  unfold watchResolvConf.
  apply respects_bind; [apply _ | apply fsnotify_NewWatcher_same | intros err].
  apply respects_bind; [apply _ | | intros _].
  { destruct err; [apply log_Fatal_same | apply ret_same]. }
  apply respects_bind; [apply _ | apply watcher_Add_same | intros err'].
  apply respects_bind; [apply _ | | intros _; apply park_same].
  destruct err'; [apply log_Fatal_same | apply ret_same].
Qed.

(** *** Exit status *)

Lemma exits_1_bind {A B} (Q : A → Prop) (m : IO A) (k : A → IO B) :
  (∀ w a w', m w = (Ret a, w') → Q a) →
  exits_1 m → (∀ a, Q a → exits_1 (k a)) → exits_1 (bind m k).
Proof.
  intros HQ Hm Hk w c w' H. unfold bind in H.
  destruct (m w) as [[a|c0|l] w1] eqn:E.
  - eapply Hk; [by eapply HQ | exact H].
  - inversion H; subst. by eapply Hm.
  - discriminate H.
Qed.

Lemma exits_1_bind' {A B} (m : IO A) (k : A → IO B) :
  exits_1 m → (∀ a, exits_1 (k a)) → exits_1 (bind m k).
Proof.
  intros Hm Hk. apply (exits_1_bind (λ _, True)); [done | exact Hm | intros a _; apply Hk].
Qed.

Lemma returns_exits_1 {A} (m : IO A) : returns m → exits_1 m.
Proof.
  intros Hm w c w' H. destruct (Hm w) as (a & w1 & E). congruence.
Qed.

Lemma returns_bind {A B} (m : IO A) (k : A → IO B) :
  returns m → (∀ a, returns (k a)) → returns (bind m k).
Proof.
  intros Hm Hk w. destruct (Hm w) as (a & w1 & E).
  destruct (Hk a w1) as (b & w2 & E2). exists b, w2.
  unfold bind. by rewrite E.
Qed.

Lemma ret_returns {A} (a : A) : returns (ret a).
Proof. intros w. by eexists _, _. Qed.

Lemma perform_returns (e : Effect) : returns (perform e).
Proof. intros w. by eexists _, _. Qed.

Lemma nextFault_returns : returns nextFault.
Proof. intros [f [|x fs] t]; by eexists _, _. Qed.

Lemma os_ReadFile_returns (path : string) : returns (os_ReadFile path).
Proof.
  intros [f [|[|e p] fs] t]; unfold os_ReadFile, bind, perform, nextFault; simpl;
    try destruct (f !! path); by eexists _, _.
Qed.

Lemma os_WriteFile_total (path data : string) : returns (os_WriteFile path data).
Proof.
  intros w. destruct (os_WriteFile_returns path data w) as (err & w' & E & _).
  by exists err, w'.
Qed.

Lemma os_MkdirAll_returns (path : string) : returns (os_MkdirAll path).
Proof. intros [f [|[|e p] fs] t]; by eexists _, _. Qed.

Lemma fsnotify_NewWatcher_returns : returns fsnotify_NewWatcher.
Proof. intros [f [|[|e p] fs] t]; by eexists _, _. Qed.

Lemma watcher_Add_returns (path : string) : returns (watcher_Add path).
Proof. intros [f [|[|e p] fs] t]; by eexists _, _. Qed.

Lemma setDNS_returns (ips : list string) : returns (setDNS ips).
Proof. apply os_WriteFile_total. Qed.

Lemma saveLastDNS_returns (name : string) : returns (saveLastDNS name).
Proof.
  unfold saveLastDNS. apply returns_bind; [apply os_MkdirAll_returns|].
  intros [e|]; [apply ret_returns | apply os_WriteFile_total].
Qed.

Lemma readLastDNS_total : returns readLastDNS.
Proof.
  intros w. destruct (readLastDNS_returns w) as (s & e & w' & E & _).
  by eexists _, _.
Qed.

Lemma os_Exit_1 {A} : exits_1 (@os_Exit A 1).
Proof. intros w c w' H. by inversion H. Qed.

Lemma log_Fatalf_exits_1 {A} (text : string) : exits_1 (@log_Fatalf A text).
Proof. intros w c w' H. by inversion H. Qed.

Lemma log_Fatal_exits_1 {A} (e : error) : exits_1 (@log_Fatal A e).
Proof. intros w c w' H. by inversion H. Qed.

Lemma park_exits_1 {A} (l : list string) : exits_1 (@park A l).
Proof. intros w c w' H. discriminate H. Qed.

Lemma watchResolvConf_exits_1 (l : list string) : exits_1 (watchResolvConf l).
Proof.
  unfold watchResolvConf.
  apply exits_1_bind'; [apply returns_exits_1, fsnotify_NewWatcher_returns | intros err].
  apply exits_1_bind'; [|intros _].
  { destruct err; [apply log_Fatal_exits_1 | apply returns_exits_1, ret_returns]. }
  apply exits_1_bind'; [apply returns_exits_1, watcher_Add_returns | intros err'].
  apply exits_1_bind'; [|intros _; apply park_exits_1].
  destruct err'; [apply log_Fatal_exits_1 | apply returns_exits_1, ret_returns].
Qed.

Lemma no_ret_bind_r {A B} (m : IO A) (k : A → IO B) :
  (∀ a, no_ret (k a)) → no_ret (bind m k).
Proof.
  intros Hk w b w' H. unfold bind in H.
  destruct (m w) as [[a|c|l] w1]; try discriminate H. by eapply Hk.
Qed.

Lemma watchResolvConf_no_ret (l : list string) : no_ret (watchResolvConf l).
Proof.
  unfold watchResolvConf. do 4 (apply no_ret_bind_r; intros ?).
  intros w u w' H. discriminate H.
Qed.

(** [watchResolvConf] parks with the list it was given, never another. *)
Lemma watchResolvConf_parks (l l' : list string) (w w' : World) :
  watchResolvConf l w = (Parked l', w') → l' = l.
Proof.
  destruct w as [f [|[|e p] [|[|e' p'] fs]] t]; intros H; inversion H; reflexivity.
Qed.

(** ** The whole program *)

Section ProgramFacts.

Variable yaml_Unmarshal : string → Config → Config * option error.

(** X1. [readConfig] always returns, and it returns a configuration
    exactly when it returns a [nil] error; it makes one system call, the
    read of the file, and changes no file; when the file is missing the
    error is not [nil], whatever the parser would do. *)
Theorem readConfig_outcome (filePath : string) (w : World) :
  ∃ config err w',
    readConfig yaml_Unmarshal filePath w = (Ret (config, err), w')
    ∧ (err = None ↔ is_Some config)
    ∧ files w' = files w
    ∧ syscalls (trace w') = SysReadFile filePath :: syscalls (trace w)
    ∧ (files w !! filePath = None → err ≠ None).
Proof.
  unfold readConfig, os_ReadFile, bind, perform, nextFault.
  destruct w as [f [|[|e p] fs] t]; simpl;
    try (destruct (f !! filePath) as [data|] eqn:E; simpl;
         try destruct (yaml_Unmarshal data _) as [c [e|]]);
    eexists _, _, _; (split; [reflexivity|]);
    (split; [split; [try done; by eauto | try done; by intros [? ?]]|]);
    (split; [reflexivity|]); (split; [reflexivity|]); done.
Qed.

Lemma readConfig_returns (filePath : string) : returns (readConfig yaml_Unmarshal filePath).
Proof.
  intros w. destruct (readConfig_outcome filePath w) as (c & e & w' & E & _).
  by eexists _, _.
Qed.

Lemma readConfig_same (filePath : string) :
  respects same_files (readConfig yaml_Unmarshal filePath).
Proof. intros w r w' H. by destruct (readConfig_reads_only _ _ _ _ _ H). Qed.

Lemma main_set_owned (config : Config) (domain : string) :
  respects (only_files owned) (main_set config domain).
Proof.
  unfold main_set. destruct (index2 (DNS config) domain) as [ips ex].
  apply respects_bind; [apply _ | | intros _].
  { eapply respects_weaken; [apply same_only|].
    destruct ex; [apply ret_same | apply log_Fatalf_same]. }
  apply respects_bind; [apply _ | | intros err].
  { eapply respects_weaken; [|apply setDNS_only].
    intros v v'. apply only_files_mono. intros path ->. by left. }
  apply respects_bind; [apply _ | | intros _].
  { eapply respects_weaken; [apply same_only|].
    destruct err; [apply log_Fatalf_same | apply ret_same]. }
  apply respects_bind; [apply _ | | intros err'].
  { eapply respects_weaken; [|apply saveLastDNS_only].
    intros v v'. apply only_files_mono. intros path ->. by right. }
  apply respects_bind; [apply _ | | intros _].
  { eapply respects_weaken; [apply same_only|].
    destruct err'; [apply log_Fatalf_same | apply ret_same]. }
  eapply respects_weaken; [apply same_only | apply perform_same].
Qed.

Lemma main_lastDNS_same : respects same_files main_lastDNS.
Proof.
  unfold main_lastDNS. apply respects_bind; [apply _ | apply readLastDNS_same|].
  intros [s err]. destruct (not_nil err || String.eqb s ""); [|apply ret_same].
  apply respects_bind; [apply _ | apply perform_same | intros _; apply ret_same].
Qed.

Lemma main_restore_only (config : Config) :
  respects (only_files (λ p, p = resolvConfPath)) (main_restore config).
Proof.
  unfold main_restore. apply respects_bind; [apply _ | | intros name].
  { eapply respects_weaken; [apply same_only | apply main_lastDNS_same]. }
  destruct (index2 (DNS config) name) as [ips ex].
  apply respects_bind; [apply _ | | intros _].
  { eapply respects_weaken; [apply same_only|].
    destruct ex; [apply ret_same | apply log_Fatalf_same]. }
  apply respects_bind; [apply _ | apply setDNS_only | intros err].
  apply respects_bind; [apply _ | | intros _].
  { eapply respects_weaken; [apply same_only|].
    destruct err; [apply log_Fatalf_same | apply ret_same]. }
  eapply respects_weaken; [apply same_only | apply perform_same].
Qed.

Lemma main_watched_same (config : Config) (domain : string) :
  respects same_files (main_watched config domain).
Proof.
  intros w r w' H.
  destruct (main_watched_returns config domain w) as (l & v & E & Hf & _).
  rewrite H in E. inversion E; subst. exact Hf.
Qed.

(** [main] changes no file outside [P] when neither of its branches does. *)
Lemma main_only (P : string → Prop) (configPath domain : string) :
  (∀ config, respects (only_files P)
               (if negb (String.eqb domain "")
                then main_set config domain else main_restore config)) →
  respects (only_files P) (main yaml_Unmarshal configPath domain).
Proof.
  intros Hbranch. unfold main.
  apply respects_bind; [apply _ | | intros [config err]].
  { eapply respects_weaken; [apply same_only | apply readConfig_same]. }
  apply respects_bind; [apply _ | | intros _].
  { eapply respects_weaken; [apply same_only|].
    destruct err; [|apply ret_same].
    apply respects_bind; [apply _ | apply perform_same | intros _; apply os_Exit_same]. }
  apply respects_bind; [apply _ | | intros c].
  { eapply respects_weaken; [apply same_only|].
    destruct config; [apply ret_same | apply os_Exit_same]. }
  apply respects_bind; [apply _ | apply Hbranch | intros _].
  apply respects_bind; [apply _ | | intros l].
  { eapply respects_weaken; [apply same_only | apply main_watched_same]. }
  eapply respects_weaken; [apply same_only | apply watchResolvConf_same].
Qed.

(** X2. Whatever the flags, the configuration, the state of the machine
    and the failures, [main] changes no file other than the resolver
    file and the last-selection file. *)
Theorem main_touches_only_owned_files
    (configPath domain path : string) (w : World) :
  path ≠ resolvConfPath →
  path ≠ lastDNSFilePath →
  files (main yaml_Unmarshal configPath domain w).2 !! path = files w !! path.
Proof.
  intros H1 H2.
  destruct (main yaml_Unmarshal configPath domain w) as [r w'] eqn:E.
  refine (main_only owned configPath domain _ w r w' E path _).
  - intros config. destruct (negb (String.eqb domain "")).
    + apply main_set_owned.
    + eapply respects_weaken; [|apply main_restore_only].
      intros v v'. apply only_files_mono. intros p ->. by left.
  - intros [->| ->]; done.
Qed.

(** X3. Without [--set], [main] changes no file other than the resolver
    file, whatever happens: in particular the last-selection file is
    never written by a restore. *)
Theorem restore_touches_only_resolver (configPath path : string) (w : World) :
  path ≠ resolvConfPath →
  files (main yaml_Unmarshal configPath "" w).2 !! path = files w !! path.
Proof.
  intros H1.
  destruct (main yaml_Unmarshal configPath "" w) as [r w'] eqn:E.
  refine (main_only (λ p, p = resolvConfPath) configPath "" _ w r w' E path H1).
  intros config. simpl. apply main_restore_only.
Qed.

Lemma main_set_exits_1 (config : Config) (domain : string) :
  exits_1 (main_set config domain).
Proof.
  unfold main_set. destruct (index2 (DNS config) domain) as [ips ex].
  apply exits_1_bind'; [|intros _].
  { destruct ex; [apply returns_exits_1, ret_returns | apply log_Fatalf_exits_1]. }
  apply exits_1_bind'; [apply returns_exits_1, setDNS_returns | intros err].
  apply exits_1_bind'; [|intros _].
  { destruct err; [apply log_Fatalf_exits_1 | apply returns_exits_1, ret_returns]. }
  apply exits_1_bind'; [apply returns_exits_1, saveLastDNS_returns | intros err'].
  apply exits_1_bind'; [|intros _; apply returns_exits_1, perform_returns].
  destruct err'; [apply log_Fatalf_exits_1 | apply returns_exits_1, ret_returns].
Qed.

Lemma main_lastDNS_returns : returns main_lastDNS.
Proof.
  unfold main_lastDNS. apply returns_bind; [apply readLastDNS_total|].
  intros [s err]. destruct (not_nil err || String.eqb s ""); [|apply ret_returns].
  apply returns_bind; [apply perform_returns | intros _; apply ret_returns].
Qed.

Lemma main_restore_exits_1 (config : Config) : exits_1 (main_restore config).
Proof.
  unfold main_restore.
  apply exits_1_bind'; [apply returns_exits_1, main_lastDNS_returns | intros name].
  destruct (index2 (DNS config) name) as [ips ex].
  apply exits_1_bind'; [|intros _].
  { destruct ex; [apply returns_exits_1, ret_returns | apply log_Fatalf_exits_1]. }
  apply exits_1_bind'; [apply returns_exits_1, setDNS_returns | intros err].
  apply exits_1_bind'; [|intros _; apply returns_exits_1, perform_returns].
  destruct err; [apply log_Fatalf_exits_1 | apply returns_exits_1, ret_returns].
Qed.

Lemma main_watched_total (config : Config) (domain : string) :
  returns (main_watched config domain).
Proof.
  intros w. destruct (main_watched_returns config domain w) as (l & v & E & _).
  by eexists _, _.
Qed.

Lemma main_exits_1 (configPath domain : string) :
  exits_1 (main yaml_Unmarshal configPath domain).
Proof.
  unfold main.
  apply (exits_1_bind (λ r, r.2 = None → is_Some r.1)).
  { intros w [c e] w' H.
    destruct (readConfig_outcome configPath w) as (c' & e' & v & E & Hiff & _).
    rewrite H in E. inversion E; subst. simpl. apply Hiff. }
  { apply returns_exits_1, readConfig_returns. }
  intros [config [e|]] HQ; simpl in HQ.
  - apply (exits_1_bind (λ _, False)).
    + intros w a w' H. inversion H.
    + apply exits_1_bind'; [apply returns_exits_1, perform_returns | intros _; apply os_Exit_1].
    + intros _ [].
  - destruct (HQ eq_refl) as [c ->].
    apply exits_1_bind'; [apply returns_exits_1, ret_returns | intros _].
    apply exits_1_bind'; [apply returns_exits_1, ret_returns | intros c'].
    apply exits_1_bind'; [|intros _].
    { destruct (negb (String.eqb domain ""));
        [apply main_set_exits_1 | apply main_restore_exits_1]. }
    apply exits_1_bind'; [apply returns_exits_1, main_watched_total | intros l].
    apply watchResolvConf_exits_1.
Qed.

Lemma main_no_ret (configPath domain : string) :
  no_ret (main yaml_Unmarshal configPath domain).
Proof.
  unfold main. apply no_ret_bind_r. intros [config err].
  do 4 (apply no_ret_bind_r; intros ?).
  apply watchResolvConf_no_ret.
Qed.

(** On the values of the flags, [main] does not return: it ends the
    process with status 1 or leaves it blocked in the watch phase, and
    it never dereferences the nil configuration pointer. *)
Lemma main_exits_1_or_parks (configPath domain : string) (w : World) :
  (main yaml_Unmarshal configPath domain w).1 = Exit 1
  ∨ ∃ l, (main yaml_Unmarshal configPath domain w).1 = Parked l.
Proof.
  destruct (main yaml_Unmarshal configPath domain w) as [[a|c|l] w'] eqn:E; simpl.
  - exfalso. by eapply main_no_ret.
  - left. f_equal. by eapply main_exits_1.
  - right. by exists l.
Qed.

End ProgramFacts.

Section StartupRuns.

Variable yaml_Unmarshal : string → Config → Config * option error.

(** X5. When the configuration cannot be loaded, [main] prints the
    error on standard output and exits with status 1; nothing has been
    written, to any file. *)
Theorem main_config_error_exits
    (configPath domain : string) (config : option Config) (e : error) (w w1 : World) :
  readConfig yaml_Unmarshal configPath w = (Ret (config, Some e), w1) →
  main yaml_Unmarshal configPath domain w
  = (Exit 1, emit (Stdout ("Error reading config file: " +:+ e +:+ nl)) w1)
  ∧ files w1 = files w
  ∧ syscalls (trace w1) = SysReadFile configPath :: syscalls (trace w).
Proof.
  intros Hcfg. split.
  - unfold main. by rewrite (bind_ret _ _ _ _ _ Hcfg).
  - destruct (readConfig_reads_only _ _ _ _ _ Hcfg) as [Hf Ht].
    split; [exact Hf|]. by rewrite Ht.
Qed.

(** X6. With [--set], when applying the profile fails the process exits
    with status 1 before the selection is saved: the last-selection file
    is as it was and its directory has not been created. *)
Theorem apply_failure_skips_save
    (configPath domain : string) (config : Config) (ips : list string)
    (e : error) (w w1 w2 : World) :
  domain ≠ "" →
  readConfig yaml_Unmarshal configPath w = (Ret (Some config, None), w1) →
  DNS config !! domain = Some ips →
  setDNS ips w1 = (Ret (Some e), w2) →
  main yaml_Unmarshal configPath domain w
  = (Exit 1, emit (Log ("Error setting DNS: " +:+ e +:+ nl)) w2)
  ∧ files w2 !! lastDNSFilePath = files w !! lastDNSFilePath
  ∧ syscalls (trace w2)
    = [SysWriteFile resolvConfPath (buildContent ips); SysReadFile configPath]
        ++ syscalls (trace w).
Proof.
  intros Hne Hcfg Hips Hset. split; [|split].
  - rewrite (main_loaded _ _ _ _ _ _ Hcfg).
    apply String.eqb_neq in Hne. unfold bind at 1. rewrite Hne. simpl.
    unfold main_set, index2. rewrite Hips. simpl.
    unfold bind at 1. simpl. by rewrite (bind_ret _ _ _ _ _ Hset).
  - destruct (readConfig_reads_only _ _ _ _ _ Hcfg) as [Hf _].
    rewrite <- Hf. apply (setDNS_only ips w1 _ w2 Hset). discriminate.
  - destruct (readConfig_reads_only _ _ _ _ _ Hcfg) as [_ Ht].
    destruct (os_WriteFile_returns "/etc/resolv.conf" (buildContent ips) w1)
      as (err & v & E & Htr).
    unfold setDNS in Hset. rewrite Hset in E. inversion E; subst.
    rewrite Htr, Ht. reflexivity.
Qed.

(** A run with [--set] on which nothing fails. *)
Lemma explicit_run
    (configPath domain : string) (config : Config) (ips : list string) (w w1 : World) :
  domain ≠ "" →
  readConfig yaml_Unmarshal configPath w = (Ret (Some config, None), w1) →
  DNS config !! domain = Some ips →
  faults w1 = [] →
  main yaml_Unmarshal configPath domain w
  = (Parked ips,
     mkWorld (<[lastDNSFilePath := domain]>
              (<[resolvConfPath := resolv_lines ips]> (files w))) []
             ([SysWatchAdd resolvConfPath; SysNewWatcher;
               Log ("DNS set to " +:+ fmt_v ips +:+ " for domain '" +:+ domain +:+ "'" +:+ nl);
               SysWriteFile lastDNSFilePath domain;
               SysMkdirAll "/var/lib/dnsmng";
               SysWriteFile resolvConfPath (resolv_lines ips);
               SysReadFile configPath] ++ trace w)).
Proof.
  intros Hne Hcfg Hips Hnil.
  destruct (readConfig_reads_only _ _ _ _ _ Hcfg) as [Hf Ht].
  rewrite (main_loaded _ _ _ _ _ _ Hcfg).
  apply String.eqb_neq in Hne. unfold bind at 1. rewrite Hne. simpl.
  unfold main_set, main_watched, index2. rewrite Hips. simpl.
  destruct w1 as [f fs t]. simpl in Hnil, Ht, Hf. subst fs t f.
  unfold setDNS. rewrite buildContent_lines. reflexivity.
Qed.

(** X7. With [--set name], the profile configured and no call failing:
    the resolver file holds the profile's lines, the last-selection file
    holds [name], every other file is as it was, and the process is
    blocked in the watch phase serving the profile's addresses. *)
Theorem explicit_selection_applies_and_persists
    (configPath domain : string) (config : Config) (ips : list string) (w w1 : World) :
  domain ≠ "" →
  readConfig yaml_Unmarshal configPath w = (Ret (Some config, None), w1) →
  DNS config !! domain = Some ips →
  faults w1 = [] →
  ∃ w', main yaml_Unmarshal configPath domain w = (Parked ips, w')
        ∧ files w' = <[lastDNSFilePath := domain]>
                       (<[resolvConfPath := resolv_lines ips]> (files w))
        ∧ syscalls (trace w')
          = [SysWatchAdd resolvConfPath; SysNewWatcher;
             SysWriteFile lastDNSFilePath domain;
             SysMkdirAll "/var/lib/dnsmng";
             SysWriteFile resolvConfPath (resolv_lines ips);
             SysReadFile configPath] ++ syscalls (trace w).
Proof.
  intros Hne Hcfg Hips Hnil. eexists.
  split; [exact (explicit_run _ _ _ _ _ _ Hne Hcfg Hips Hnil)|].
  split; reflexivity.
Qed.

(** A run without [--set] on a machine whose last-selection file names
    a configured profile, on which nothing fails. *)
Lemma restore_run
    (configPath name : string) (config : Config) (ips : list string) (w w1 : World) :
  readConfig yaml_Unmarshal configPath w = (Ret (Some config, None), w1) →
  files w1 !! lastDNSFilePath = Some name →
  name ≠ "" →
  DNS config !! name = Some ips →
  DNS config !! "" = None →
  faults w1 = [] →
  main yaml_Unmarshal configPath "" w
  = (Parked ips,
     mkWorld (<[resolvConfPath := resolv_lines ips]> (files w)) []
             ([SysWatchAdd resolvConfPath; SysNewWatcher;
               SysReadFile lastDNSFilePath;
               Log ("Restored last DNS: " +:+ name +:+ nl);
               SysWriteFile resolvConfPath (resolv_lines ips);
               SysReadFile lastDNSFilePath;
               SysReadFile configPath] ++ trace w)).
Proof.
  intros Hcfg Hrec Hne Hips Hempty Hnil.
  destruct (readConfig_reads_only _ _ _ _ _ Hcfg) as [Hf Ht].
  rewrite (main_loaded _ _ _ _ _ _ Hcfg). simpl.
  assert (Hok : next_fault w1 = NoFault) by (unfold next_fault; by rewrite Hnil).
  pose proof (main_lastDNS_cases _ _ _ _ (readLastDNS_ok name w1 Hrec Hok)) as Hname.
  apply String.eqb_neq in Hne. simpl in Hname. rewrite Hne in Hname.
  erewrite (bind_ret (main_restore config)); cycle 1.
  { apply (main_restore_ok _ _ _ _ _ Hname Hips).
    unfold next_fault. simpl. by rewrite Hnil. }
  unfold main_watched, index2, index1, index2. rewrite Hempty. simpl.
  unfold bind at 1 2. rewrite (readLastDNS_ok name); simpl;
    [ | by rewrite lookup_insert_ne | unfold next_fault; simpl; by rewrite Hnil ].
  rewrite Hips. simpl.
  rewrite watchResolvConf_ok by (simpl; by rewrite Hnil).
  simpl. rewrite Hf, Ht. reflexivity.
Qed.

(** X8. Without [--set], when the last-selection file names a configured
    profile, the configuration has no profile with the empty name and
    no call fails: the profile's lines are written to the resolver file,
    nothing else is written, and the process is blocked in the watch
    phase serving the same addresses. *)
Theorem restore_applies_record
    (configPath name : string) (config : Config) (ips : list string) (w w1 : World) :
  readConfig yaml_Unmarshal configPath w = (Ret (Some config, None), w1) →
  files w1 !! lastDNSFilePath = Some name →
  name ≠ "" →
  DNS config !! name = Some ips →
  DNS config !! "" = None →
  faults w1 = [] →
  ∃ w', main yaml_Unmarshal configPath "" w = (Parked ips, w')
        ∧ files w' = <[resolvConfPath := resolv_lines ips]> (files w)
        ∧ all_writes (trace w')
          = (resolvConfPath, resolv_lines ips) :: all_writes (trace w).
Proof.
  intros Hcfg Hrec Hne Hips Hempty Hnil. eexists.
  split; [exact (restore_run _ _ _ _ _ _ Hcfg Hrec Hne Hips Hempty Hnil)|].
  split; reflexivity.
Qed.

(** What a successful [readConfig] read. *)
Lemma readConfig_ok_inv (filePath : string) (config : Config) (w w1 : World) :
  readConfig yaml_Unmarshal filePath w = (Ret (Some config, None), w1) →
  ∃ data, files w !! filePath = Some data
          ∧ yaml_Unmarshal data (mkConfig ∅) = (config, None)
          ∧ next_fault w = NoFault.
Proof.
  unfold readConfig, os_ReadFile, bind, perform, nextFault.
  destruct w as [f [|[|e p] fs] t]; simpl;
    try (destruct (f !! filePath) as [data|] eqn:E; simpl;
         try destruct (yaml_Unmarshal data _) as [c [e|]] eqn:Ey);
    intros H; inversion H; subst; by exists data.
Qed.

Lemma readConfig_ok (filePath data : string) (config : Config) (w : World) :
  files w !! filePath = Some data →
  yaml_Unmarshal data (mkConfig ∅) = (config, None) →
  next_fault w = NoFault →
  readConfig yaml_Unmarshal filePath w
  = (Ret (Some config, None), after_call (SysReadFile filePath) (files w) w).
Proof.
  unfold readConfig, os_ReadFile, bind, perform, nextFault.
  destruct w as [f [|[|e p] fs] t]; simpl; intros Hd Hy Hok;
    try discriminate Hok; by rewrite Hd, Hy.
Qed.

(** X9. A selection survives a restart.  After a run with [--set name]
    on which nothing failed, a run without [--set] on the machine it
    left behind (the configuration has no profile with the empty name,
    nothing fails) leaves every file as the first run left it and
    serves the same addresses in its watch phase. *)
Theorem set_then_restart
    (configPath domain : string) (config : Config) (ips : list string) (w w1 : World) :
  domain ≠ "" →
  configPath ≠ resolvConfPath →
  configPath ≠ lastDNSFilePath →
  readConfig yaml_Unmarshal configPath w = (Ret (Some config, None), w1) →
  DNS config !! domain = Some ips →
  DNS config !! "" = None →
  faults w1 = [] →
  ∃ w' w'',
    main yaml_Unmarshal configPath domain w = (Parked ips, w')
    ∧ main yaml_Unmarshal configPath "" w' = (Parked ips, w'')
    ∧ files w'' = files w'
    ∧ files w'' !! resolvConfPath = Some (resolv_lines ips)
    ∧ files w'' !! lastDNSFilePath = Some domain.
Proof.
  intros Hne Hc1 Hc2 Hcfg Hips Hempty Hnil.
  pose proof (explicit_run _ _ _ _ _ _ Hne Hcfg Hips Hnil) as Hfirst.
  destruct (readConfig_ok_inv _ _ _ _ Hcfg) as (data & Hdata & Hyaml & _).
  eexists _, _. split; [exact Hfirst|].
  match type of Hfirst with _ = (_, ?v) => set (w' := v) end.
  assert (Hcfg' : readConfig yaml_Unmarshal configPath w'
                  = (Ret (Some config, None),
                     after_call (SysReadFile configPath) (files w') w')).
  { apply (readConfig_ok _ data); [|exact Hyaml|reflexivity].
    unfold w'. simpl. by rewrite !lookup_insert_ne. }
  assert (Hrec : files w' !! lastDNSFilePath = Some domain).
  { unfold w'. simpl. apply lookup_insert_eq. }
  split.
  - rewrite (restore_run _ domain _ ips _ _ Hcfg' Hrec Hne Hips Hempty eq_refl).
    reflexivity.
  - simpl. split; [|split].
    + rewrite insert_insert_ne by discriminate.
      rewrite insert_insert_eq. by rewrite insert_insert_ne by discriminate.
    + rewrite lookup_insert_eq. reflexivity.
    + rewrite lookup_insert_ne by discriminate. apply lookup_insert_eq.
Qed.

End StartupRuns.

(** ** The stores and the subscription, whatever happens *)

(** X10. [saveLastDNS] always returns and changes no file but the
    last-selection file; when it returns [nil] that file holds exactly
    the name; when the directory cannot be created it returns that
    error without attempting the write, every file being as it was. *)
Theorem saveLastDNS_outcome (name : string) (w : World) :
  ∃ err w',
    saveLastDNS name w = (Ret err, w')
    ∧ (∀ path, path ≠ lastDNSFilePath → files w' !! path = files w !! path)
    ∧ (err = None → files w' !! lastDNSFilePath = Some name)
    ∧ (∀ e p, next_fault w = Fail e p →
         err = Some e
         ∧ files w' = files w
         ∧ syscalls (trace w') = SysMkdirAll "/var/lib/dnsmng" :: syscalls (trace w)).
Proof.
  destruct (saveLastDNS_returns name w) as (err & w' & E).
  exists err, w'. split; [exact E|]. split; [|split].
  - intros path Hp. by apply (saveLastDNS_only name w _ w' E).
  - intros ->. rewrite (saveLastDNS_nil _ _ _ E). apply lookup_insert_eq.
  - intros e p Hf. revert E.
    destruct w as [f [|[|e0 p0] fs] t]; try discriminate Hf.
    inversion Hf; subst. intros E. inversion E; subst. done.
Qed.

(** X11. [readLastDNS] always returns and changes no file; with a [nil]
    error the name is the whole content of the last-selection file,
    byte for byte; with an error the name is empty; and when the file
    is missing there is an error. *)
Theorem readLastDNS_outcome (w : World) :
  ∃ s err w',
    readLastDNS w = (Ret (s, err), w')
    ∧ files w' = files w
    ∧ (err = None → files w !! lastDNSFilePath = Some s)
    ∧ (err ≠ None → s = "")
    ∧ (files w !! lastDNSFilePath = None → err ≠ None).
Proof.
  destruct (readLastDNS_returns w) as (s & err & w' & E & Hf & _).
  exists s, err, w'. split; [exact E|]. split; [exact Hf|]. split; [|split].
  - intros ->. by eapply readLastDNS_nil.
  - destruct err as [e|]; [|done]. intros _. by eapply readLastDNS_err.
  - intros Hnone ->. apply readLastDNS_nil in E. congruence.
Qed.

(** X12. [watchResolvConf] changes no file and does not return: it
    leaves the process blocked serving exactly the list it was given
    when the watcher is created and the resolver file subscribed, and
    otherwise ends the process with status 1; when the watcher cannot
    be created no subscription is attempted. *)
Theorem watchResolvConf_outcome (l : list string) (w : World) :
  ∃ r w',
    watchResolvConf l w = (r, w')
    ∧ files w' = files w
    ∧ (r = Parked l ∨ r = Exit 1)
    ∧ (r = Parked l ↔
       next_fault w = NoFault ∧ hd NoFault (tail (faults w)) = NoFault)
    ∧ (∀ e p, next_fault w = Fail e p →
         syscalls (trace w') = SysNewWatcher :: syscalls (trace w)).
Proof.
  destruct w as [f [|[|e p] [|[|e' p'] fs]] t];
    (eexists _, _; split; [reflexivity|]; split; [reflexivity|]);
    (split; [by auto|]);
    (split; [split; [try done; by intros [? ?] | try done; by intros [? ?]]|]);
    intros e0 p0 Hf; try discriminate Hf; reflexivity.
Qed.

(** ** The watch task and the file system *)

Lemma land_pow2 (a k : Z) :
  (0 ≤ k)%Z → Z.land a (2 ^ k) = if Z.testbit a k then (2 ^ k)%Z else 0%Z.
Proof.
  intros Hk. apply Z.bits_inj'. intros n Hn.
  rewrite Z.land_spec, Z.pow2_bits_eqb by lia.
  destruct (Z.eqb_spec k n) as [->|Hkn].
  - destruct (Z.testbit a n) eqn:E; simpl.
    + by rewrite Z.pow2_bits_true.
    + by rewrite Z.bits_0.
  - rewrite andb_false_r. destruct (Z.testbit a k).
    + by rewrite Z.pow2_bits_false.
    + by rewrite Z.bits_0.
Qed.

(** X13. When the constant [fsnotify.Write] is a single bit, the test
    of the loop sees exactly that bit of the event's operation mask: an
    event reporting several operations at once counts as a write when
    the write is among them, and no other operation counts. *)
Theorem is_write_single_bit (k : Z) (event : Event) :
  (0 ≤ k)%Z →
  is_write (2 ^ k) event = Z.testbit (Op event) k.
Proof.
  intros Hk. unfold is_write. rewrite land_pow2 by exact Hk.
  destruct (Z.testbit (Op event) k).
  - apply Z.eqb_refl.
  - apply Z.eqb_neq. pose proof (Z.pow_pos_nonneg 2 k). lia.
Qed.

Section TaskFiles.

Variable fsnotify_Write : Z.
Variable dnsIPs : list string.

(** X14. An iteration of the watch task changes no file other than the
    resolver file, and changes no file at all unless the message is a
    delivered write-class event. *)
Theorem step_touches_only_resolver (s s' : TaskState) (m : Msg) (c : Ctl) :
  step fsnotify_Write dnsIPs s m c s' →
  (∀ path, path ≠ resolvConfPath → files s'.2 !! path = files s.2 !! path)
  ∧ (is_write_msg fsnotify_Write m = false → files s'.2 = files s.2).
Proof.
  intros Hstep. inversion Hstep as [pick wt wt' m' w w' c' Hsel Hbody]; subst.
  simpl. destruct m as [event [|] | err [|]]; simpl in *.
  - destruct (is_write fsnotify_Write event) eqn:Ew; simpl in Hbody.
    + split; [|done]. intros path Hp.
      destruct w as [f [|[|e [n|]] fs] t]; inversion Hbody; simpl;
        try reflexivity; by rewrite lookup_insert_ne.
    + inversion Hbody; subst. by split.
  - inversion Hbody; subst. by split.
  - inversion Hbody; subst. by split.
  - inversion Hbody; subst. by split.
Qed.

(** X15. On a delivered write-class event, when the write goes through,
    the iteration leaves the resolver file holding the lines of the
    list the task serves, whatever the file held and wherever the event
    came from; when the file already held them, the file system after
    the iteration is the one before. *)
Theorem restoration_reverts_tampering (event : Event) (w : World) :
  is_write fsnotify_Write event = true →
  next_fault w = NoFault →
  ∃ w', loop_body fsnotify_Write dnsIPs (MEvent event true) w = (Ret Continue, w')
        ∧ files w' !! resolvConfPath = Some (resolv_lines dnsIPs)
        ∧ (∀ path, path ≠ resolvConfPath → files w' !! path = files w !! path)
        ∧ (files w !! resolvConfPath = Some (resolv_lines dnsIPs) →
           files w' = files w).
Proof.
  intros Hw Hok.
  destruct (loop_body_write_event fsnotify_Write dnsIPs event w Hw)
    as (w' & E & _ & Hf).
  exists w'. split; [exact E|]. rewrite (Hf Hok). split; [|split].
  - apply lookup_insert_eq.
  - intros path Hp. by rewrite lookup_insert_ne.
  - intros Hsame. by apply insert_id.
Qed.

End TaskFiles.

(** ** The serialisation *)

Lemma length_append (a b : string) :
  String.length (a +:+ b) = (String.length a + String.length b)%nat.
Proof.
  induction a as [|x a IH]; [reflexivity|].
  change (S (String.length (a +:+ b)) = S (String.length a + String.length b)).
  by rewrite IH.
Qed.

(** X16. The content built for a list in two parts is the content for
    the first part followed by the content for the second: every
    address contributes its own line, independently of its neighbours. *)
Theorem buildContent_app (l1 l2 : list string) :
  buildContent (l1 ++ l2) = buildContent l1 +:+ buildContent l2.
Proof.
  rewrite !buildContent_lines.
  induction l1 as [|ip rest IH]; [reflexivity|].
  change (("nameserver " +:+ ip +:+ nl +:+ resolv_lines (rest ++ l2))
          = ("nameserver " +:+ ip +:+ nl +:+ resolv_lines rest) +:+ resolv_lines l2).
  rewrite IH. by rewrite !append_assoc.
Qed.

(** X17. The content built for a list has 12 bytes per address (the
    word [nameserver], a space and the newline) plus the bytes of the
    addresses; so it is empty only for the empty list. *)
Theorem buildContent_length (ips : list string) :
  String.length (buildContent ips) = lines_length ips
  ∧ (buildContent ips = "" ↔ ips = []).
Proof.
  assert (Hlen : ∀ l, String.length (buildContent l) = lines_length l).
  { intros l. rewrite buildContent_lines.
    induction l as [|ip rest IH]; [reflexivity|].
    change (String.length ("nameserver " +:+ (ip +:+ (nl +:+ resolv_lines rest)))
            = (11 + String.length ip + 1 + lines_length rest)%nat).
    rewrite !length_append, IH. simpl. lia. }
  split; [apply Hlen|]. split.
  - intros Hempty. pose proof (Hlen ips) as H. rewrite Hempty in H.
    destruct ips as [|ip rest]; [reflexivity|]. simpl in H. lia.
  - intros ->. reflexivity.
Qed.

(** ** The earlier program *)

Section LegacyFacts.

Variable yaml_Unmarshal : string → Config → Config * option error.

(** X18. The earlier [main], the profile configured and the write going
    through: the resolver file holds the profile's lines, the success is
    reported on standard output, and [main] returns (exit status 0)
    instead of entering a watch phase. *)
Theorem legacy_main_applies
    (configPath domain : string) (config : Config) (ips : list string) (w w1 : World) :
  readConfig yaml_Unmarshal configPath w = (Ret (Some config, None), w1) →
  DNS config !! domain = Some ips →
  next_fault w1 = NoFault →
  Legacy.main yaml_Unmarshal configPath domain w
  = (Ret tt,
     emit (Stdout ("DNS set to " +:+ fmt_v ips +:+ " for domain '" +:+ domain +:+ "'" +:+ nl))
          (written resolvConfPath (resolv_lines ips) w1)).
Proof.
  intros Hcfg Hips Hok. unfold Legacy.main.
  rewrite (bind_ret _ _ _ _ _ Hcfg). cbn [bind ret].
  unfold index2. rewrite Hips. cbn [bind ret negb].
  by rewrite (bind_ret _ _ _ _ _ (setDNS_ok ips w1 Hok)).
Qed.

(** X19. The earlier [main] with a name the configuration does not
    have, the empty name included: the miss is reported on standard
    output, the process exits with status 1 and no file has changed;
    there is no fallback to a saved or default name. *)
Theorem legacy_main_unknown_profile
    (configPath domain : string) (config : Config) (w w1 : World) :
  readConfig yaml_Unmarshal configPath w = (Ret (Some config, None), w1) →
  DNS config !! domain = None →
  Legacy.main yaml_Unmarshal configPath domain w
  = (Exit 1,
     emit (Stdout ("DNS entry for '" +:+ domain +:+ "' not found in config" +:+ nl)) w1)
  ∧ files w1 = files w
  ∧ syscalls (trace w1) = SysReadFile configPath :: syscalls (trace w).
Proof.
  intros Hcfg Hmiss. split.
  - unfold Legacy.main. rewrite (bind_ret _ _ _ _ _ Hcfg). cbn [bind ret].
    unfold index2. by rewrite Hmiss.
  - destruct (readConfig_reads_only _ _ _ _ _ Hcfg) as [Hf Ht].
    split; [exact Hf|]. by rewrite Ht.
Qed.

(** On the values of the flags, the earlier [main] returns or exits
    with status 1; it changes no file other than the resolver file; and
    its system calls are the read of the configuration followed by at
    most one write, to the resolver file. *)
Lemma legacy_main_outcome (configPath domain : string) (w : World) :
  ∃ r w',
    Legacy.main yaml_Unmarshal configPath domain w = (r, w')
    ∧ (r = Ret tt ∨ r = Exit 1)
    ∧ (∀ path, path ≠ resolvConfPath → files w' !! path = files w !! path)
    ∧ ∃ pre, syscalls (trace w') = pre ++ SysReadFile configPath :: syscalls (trace w)
             ∧ (pre = [] ∨ ∃ data, pre = [SysWriteFile resolvConfPath data]).
Proof.
  destruct (readConfig_outcome yaml_Unmarshal configPath w)
    as (cfg & err & w1 & E & Hiff & Hf & Hs & _).
  unfold Legacy.main. rewrite (bind_ret _ _ _ _ _ E).
  destruct err as [e|]; simpl.
  - eexists _, _. split; [reflexivity|]. split; [by right|]. simpl.
    split; [intros path _; by rewrite Hf|]. exists []. split; [exact Hs | by left].
  - destruct cfg as [c|]; [|by destruct (proj1 Hiff eq_refl)]. cbn [bind ret].
    unfold index2. destruct (DNS c !! domain) as [ips|]; cbn [bind ret negb].
    + unfold setDNS.
      destruct w1 as [f [|[|e [n|]] fs] t]; simpl in Hf, Hs; subst f;
        (eexists _, _; split; [reflexivity|]; split; [by auto|]; simpl; split;
         [ intros path Hp; try reflexivity; by rewrite lookup_insert_ne
         | eexists [_]; split; [simpl; by rewrite Hs | right; by eexists] ]).
    + eexists _, _. split; [reflexivity|]. split; [by right|]. simpl.
      split; [intros path _; by rewrite Hf|]. exists []. split; [exact Hs | by left].
Qed.

End LegacyFacts.

(** ** The statements above on concrete machines *)

Lemma main_touches_only_owned_files_witness :
  files (main Demo.yaml_Unmarshal Demo.configPath "cloudflare" Demo.fresh).2
    !! Demo.configPath
  = files Demo.fresh !! Demo.configPath.
Proof.
  apply (main_touches_only_owned_files Demo.yaml_Unmarshal Demo.configPath
           "cloudflare" Demo.configPath Demo.fresh); discriminate.
Defined.

Lemma restore_touches_only_resolver_witness :
  files (main Demo.yaml_Unmarshal Demo.configPath "" Demo.restarted).2
    !! lastDNSFilePath
  = files Demo.restarted !! lastDNSFilePath.
Proof.
  apply (restore_touches_only_resolver Demo.yaml_Unmarshal Demo.configPath
           lastDNSFilePath Demo.restarted); discriminate.
Defined.

Lemma main_config_error_exits_witness :
  main Demo.yaml_Unmarshal Demo.configPath "cloudflare" Bench.bare
  = (Exit 1,
     emit (Stdout ("Error reading config file: " +:+ ENOENT Demo.configPath +:+ nl))
          (readConfig Demo.yaml_Unmarshal Demo.configPath Bench.bare).2)
  ∧ files (readConfig Demo.yaml_Unmarshal Demo.configPath Bench.bare).2
    = files Bench.bare
  ∧ syscalls (trace (readConfig Demo.yaml_Unmarshal Demo.configPath Bench.bare).2)
    = SysReadFile Demo.configPath :: syscalls (trace Bench.bare).
Proof.
  apply (main_config_error_exits Demo.yaml_Unmarshal Demo.configPath "cloudflare"
           None (ENOENT Demo.configPath) Bench.bare).
  vm_compute. reflexivity.
Defined.

Lemma apply_failure_skips_save_witness :
  (main Demo.yaml_Unmarshal Demo.configPath "cloudflare" Bench.write_fails).1 = Exit 1
  ∧ files (main Demo.yaml_Unmarshal Demo.configPath "cloudflare" Bench.write_fails).2
      !! lastDNSFilePath
    = Some "local".
Proof.
  pose (w1 := (readConfig Demo.yaml_Unmarshal Demo.configPath Bench.write_fails).2).
  pose (w2 := (setDNS ["1.1.1.1"; "1.0.0.1"] w1).2).
  destruct (apply_failure_skips_save Demo.yaml_Unmarshal Demo.configPath "cloudflare"
              Demo.config ["1.1.1.1"; "1.0.0.1"]
              "write /etc/resolv.conf: no space left on device"
              Bench.write_fails w1 w2) as (Hmain & Hrec & _).
  - discriminate.
  - vm_compute. reflexivity.
  - vm_compute. reflexivity.
  - vm_compute. reflexivity.
  - rewrite Hmain. split; [reflexivity|]. simpl. rewrite Hrec.
    vm_compute. reflexivity.
Defined.

Lemma explicit_selection_applies_and_persists_witness :
  ∃ w', main Demo.yaml_Unmarshal Demo.configPath "cloudflare" Demo.fresh
        = (Parked ["1.1.1.1"; "1.0.0.1"], w')
        ∧ files w' = <[lastDNSFilePath := "cloudflare"]>
                       (<[resolvConfPath := resolv_lines ["1.1.1.1"; "1.0.0.1"]]>
                          (files Demo.fresh))
        ∧ syscalls (trace w')
          = [SysWatchAdd resolvConfPath; SysNewWatcher;
             SysWriteFile lastDNSFilePath "cloudflare";
             SysMkdirAll "/var/lib/dnsmng";
             SysWriteFile resolvConfPath (resolv_lines ["1.1.1.1"; "1.0.0.1"]);
             SysReadFile Demo.configPath] ++ syscalls (trace Demo.fresh).
Proof.
  apply (explicit_selection_applies_and_persists Demo.yaml_Unmarshal Demo.configPath
           "cloudflare" Demo.config ["1.1.1.1"; "1.0.0.1"] Demo.fresh
           (readConfig Demo.yaml_Unmarshal Demo.configPath Demo.fresh).2).
  - discriminate.
  - vm_compute. reflexivity.
  - vm_compute. reflexivity.
  - reflexivity.
Defined.

Lemma restore_applies_record_witness :
  ∃ w', main Demo.yaml_Unmarshal Demo.configPath "" Demo.restarted
        = (Parked ["1.1.1.1"; "1.0.0.1"], w')
        ∧ files w' = <[resolvConfPath := resolv_lines ["1.1.1.1"; "1.0.0.1"]]>
                       (files Demo.restarted)
        ∧ all_writes (trace w')
          = (resolvConfPath, resolv_lines ["1.1.1.1"; "1.0.0.1"])
              :: all_writes (trace Demo.restarted).
Proof.
  apply (restore_applies_record Demo.yaml_Unmarshal Demo.configPath "cloudflare"
           Demo.config ["1.1.1.1"; "1.0.0.1"] Demo.restarted
           (readConfig Demo.yaml_Unmarshal Demo.configPath Demo.restarted).2).
  - vm_compute. reflexivity.
  - vm_compute. reflexivity.
  - discriminate.
  - vm_compute. reflexivity.
  - vm_compute. reflexivity.
  - reflexivity.
Defined.

Lemma set_then_restart_witness :
  ∃ w' w'',
    main Demo.yaml_Unmarshal Demo.configPath "cloudflare" Demo.fresh
    = (Parked ["1.1.1.1"; "1.0.0.1"], w')
    ∧ main Demo.yaml_Unmarshal Demo.configPath "" w'
      = (Parked ["1.1.1.1"; "1.0.0.1"], w'')
    ∧ files w'' = files w'
    ∧ files w'' !! resolvConfPath = Some (resolv_lines ["1.1.1.1"; "1.0.0.1"])
    ∧ files w'' !! lastDNSFilePath = Some "cloudflare".
Proof.
  apply (set_then_restart Demo.yaml_Unmarshal Demo.configPath "cloudflare"
           Demo.config ["1.1.1.1"; "1.0.0.1"] Demo.fresh
           (readConfig Demo.yaml_Unmarshal Demo.configPath Demo.fresh).2).
  - discriminate.
  - discriminate.
  - discriminate.
  - vm_compute. reflexivity.
  - vm_compute. reflexivity.
  - vm_compute. reflexivity.
  - reflexivity.
Defined.

Lemma is_write_single_bit_witness :
  is_write (2 ^ 1) Bench.write_and_chmod = Z.testbit (Op Bench.write_and_chmod) 1.
Proof. apply (is_write_single_bit 1 Bench.write_and_chmod). lia. Defined.

Lemma step_touches_only_resolver_witness :
  (∀ path, path ≠ resolvConfPath →
     files (written resolvConfPath (resolv_lines ["127.0.0.1"])
              (emit (Log ("Detected change in /etc/resolv.conf, restoring DNS settings" +:+ nl))
                 Demo.restarted)) !! path
     = files Demo.restarted !! path)
  ∧ (is_write_msg Demo.Write (MEvent Bench.write_and_chmod true) = false →
     files (written resolvConfPath (resolv_lines ["127.0.0.1"])
              (emit (Log ("Detected change in /etc/resolv.conf, restoring DNS settings" +:+ nl))
                 Demo.restarted))
     = files Demo.restarted).
Proof.
  apply (step_touches_only_resolver Demo.Write ["127.0.0.1"]
           (mkWatcher (mkChan [Bench.write_and_chmod] false) (mkChan [] false),
            Demo.restarted)
           (mkWatcher (mkChan [] false) (mkChan [] false),
            written resolvConfPath (resolv_lines ["127.0.0.1"])
              (emit (Log ("Detected change in /etc/resolv.conf, restoring DNS settings" +:+ nl))
                 Demo.restarted))
           (MEvent Bench.write_and_chmod true) Continue).
  apply (step_select _ _ CaseEvents); reflexivity.
Defined.

Lemma restoration_reverts_tampering_witness :
  ∃ w', loop_body Demo.Write ["127.0.0.1"] (MEvent Bench.write_and_chmod true)
          (set_faults [] Demo.tampered) = (Ret Continue, w')
        ∧ files w' !! resolvConfPath = Some (resolv_lines ["127.0.0.1"])
        ∧ (∀ path, path ≠ resolvConfPath →
             files w' !! path = files (set_faults [] Demo.tampered) !! path)
        ∧ (files (set_faults [] Demo.tampered) !! resolvConfPath
           = Some (resolv_lines ["127.0.0.1"]) →
           files w' = files (set_faults [] Demo.tampered)).
Proof.
  apply (restoration_reverts_tampering Demo.Write ["127.0.0.1"]
           Bench.write_and_chmod (set_faults [] Demo.tampered)); reflexivity.
Defined.

Lemma legacy_main_applies_witness :
  Legacy.main Demo.yaml_Unmarshal Demo.configPath "local" Demo.fresh
  = (Ret tt,
     emit (Stdout ("DNS set to " +:+ fmt_v ["127.0.0.1"] +:+ " for domain '"
                     +:+ "local" +:+ "'" +:+ nl))
          (written resolvConfPath (resolv_lines ["127.0.0.1"])
             (readConfig Demo.yaml_Unmarshal Demo.configPath Demo.fresh).2)).
Proof.
  apply (legacy_main_applies Demo.yaml_Unmarshal Demo.configPath "local"
           Demo.config ["127.0.0.1"] Demo.fresh).
  - vm_compute. reflexivity.
  - vm_compute. reflexivity.
  - reflexivity.
Defined.

Lemma legacy_main_unknown_profile_witness :
  Legacy.main Demo.yaml_Unmarshal Demo.configPath "" Demo.restarted
  = (Exit 1,
     emit (Stdout ("DNS entry for '" +:+ "" +:+ "' not found in config" +:+ nl))
          (readConfig Demo.yaml_Unmarshal Demo.configPath Demo.restarted).2)
  ∧ files (readConfig Demo.yaml_Unmarshal Demo.configPath Demo.restarted).2
    = files Demo.restarted
  ∧ syscalls (trace (readConfig Demo.yaml_Unmarshal Demo.configPath Demo.restarted).2)
    = SysReadFile Demo.configPath :: syscalls (trace Demo.restarted).
Proof.
  apply (legacy_main_unknown_profile Demo.yaml_Unmarshal Demo.configPath ""
           Demo.config Demo.restarted).
  - vm_compute. reflexivity.
  - vm_compute. reflexivity.
Defined.

(** ** Exits are announced *)

Lemma loud_bind {A B} (Q : A → Prop) (m : IO A) (k : A → IO B) :
  (∀ w a w', m w = (Ret a, w') → Q a) →
  loud m → (∀ a, Q a → loud (k a)) → loud (bind m k).
Proof.
  intros HQ Hm Hk w c w' H. unfold bind in H.
  destruct (m w) as [[a|c0|l] w1] eqn:E.
  - eapply Hk; [by eapply HQ | exact H].
  - inversion H; subst. by eapply Hm.
  - discriminate H.
Qed.

Lemma loud_bind' {A B} (m : IO A) (k : A → IO B) :
  loud m → (∀ a, loud (k a)) → loud (bind m k).
Proof.
  intros Hm Hk. apply (loud_bind (λ _, True)); [done | exact Hm | intros a _; apply Hk].
Qed.

Lemma returns_loud {A} (m : IO A) : returns m → loud m.
Proof. intros Hm w c w' H. destruct (Hm w) as (a & w1 & E). congruence. Qed.

Lemma log_Fatalf_loud {A} (text : string) : loud (@log_Fatalf A text).
Proof. intros w c w' H. inversion H. exists text. by left. Qed.

Lemma log_Fatal_loud {A} (e : error) : loud (@log_Fatal A e).
Proof. intros w c w' H. inversion H. exists (e +:+ nl). by left. Qed.

Lemma printf_exit_loud {A} (text : string) (c : Z) :
  loud (bind (fmt_Printf text) (λ _, @os_Exit A c)).
Proof. intros w c' w' H. inversion H. exists text. by right. Qed.

Lemma park_loud {A} (l : list string) : loud (@park A l).
Proof. intros w c w' H. discriminate H. Qed.

Lemma watchResolvConf_loud (l : list string) : loud (watchResolvConf l).
Proof.
  unfold watchResolvConf.
  apply loud_bind'; [apply returns_loud, fsnotify_NewWatcher_returns | intros err].
  apply loud_bind'; [|intros _].
  { destruct err; [apply log_Fatal_loud | apply returns_loud, ret_returns]. }
  apply loud_bind'; [apply returns_loud, watcher_Add_returns | intros err'].
  apply loud_bind'; [|intros _; apply park_loud].
  destruct err'; [apply log_Fatal_loud | apply returns_loud, ret_returns].
Qed.

Section Announced.

Variable yaml_Unmarshal : string → Config → Config * option error.

Lemma main_set_loud (config : Config) (domain : string) : loud (main_set config domain).
Proof.
  unfold main_set. destruct (index2 (DNS config) domain) as [ips ex].
  apply loud_bind'; [|intros _].
  { destruct ex; [apply returns_loud, ret_returns | apply log_Fatalf_loud]. }
  apply loud_bind'; [apply returns_loud, setDNS_returns | intros err].
  apply loud_bind'; [|intros _].
  { destruct err; [apply log_Fatalf_loud | apply returns_loud, ret_returns]. }
  apply loud_bind'; [apply returns_loud, saveLastDNS_returns | intros err'].
  apply loud_bind'; [|intros _; apply returns_loud, perform_returns].
  destruct err'; [apply log_Fatalf_loud | apply returns_loud, ret_returns].
Qed.

Lemma main_restore_loud (config : Config) : loud (main_restore config).
Proof.
  unfold main_restore.
  apply loud_bind'; [apply returns_loud, main_lastDNS_returns | intros name].
  destruct (index2 (DNS config) name) as [ips ex].
  apply loud_bind'; [|intros _].
  { destruct ex; [apply returns_loud, ret_returns | apply log_Fatalf_loud]. }
  apply loud_bind'; [apply returns_loud, setDNS_returns | intros err].
  apply loud_bind'; [|intros _; apply returns_loud, perform_returns].
  destruct err; [apply log_Fatalf_loud | apply returns_loud, ret_returns].
Qed.

(** X21. [main] never ends the process silently: whenever it exits,
    the last thing it did was to print or log a message. *)
Theorem main_exits_with_message
    (configPath domain : string) (w w' : World) (c : Z) :
  main yaml_Unmarshal configPath domain w = (Exit c, w') →
  ∃ text, head (trace w') = Some (Log text) ∨ head (trace w') = Some (Stdout text).
Proof.
  revert w c w'. change (loud (main yaml_Unmarshal configPath domain)).
  unfold main.
  apply (loud_bind (λ r, r.2 = None → is_Some r.1)).
  { intros w [cfg e] w' H.
    destruct (readConfig_outcome yaml_Unmarshal configPath w)
      as (c' & e' & v & E & Hiff & _).
    rewrite H in E. inversion E; subst. simpl. apply Hiff. }
  { apply returns_loud, readConfig_returns. }
  intros [config [e|]] HQ; simpl in HQ.
  - apply (loud_bind (λ _, False)).
    + intros w a w' H. inversion H.
    + apply printf_exit_loud.
    + intros _ [].
  - destruct (HQ eq_refl) as [cfg ->].
    apply loud_bind'; [apply returns_loud, ret_returns | intros _].
    apply loud_bind'; [apply returns_loud, ret_returns | intros c'].
    apply loud_bind'; [|intros _].
    { destruct (negb (String.eqb domain ""));
        [apply main_set_loud | apply main_restore_loud]. }
    apply loud_bind'; [apply returns_loud, main_watched_total | intros l].
    apply watchResolvConf_loud.
Qed.

(** X22. With [--set], reaching the watch phase means everything was
    done, whatever the oracle: the addresses served are those
    configured under the name, the resolver file holds their lines and
    the last-selection file holds the name. *)
Theorem explicit_watch_phase_implies_applied
    (configPath domain : string) (config : Config) (l : list string) (w w1 w' : World) :
  domain ≠ "" →
  readConfig yaml_Unmarshal configPath w = (Ret (Some config, None), w1) →
  main yaml_Unmarshal configPath domain w = (Parked l, w') →
  DNS config !! domain = Some l
  ∧ files w' !! resolvConfPath = Some (resolv_lines l)
  ∧ files w' !! lastDNSFilePath = Some domain.
Proof.
  intros Hne Hcfg Hmain.
  rewrite (main_loaded _ _ _ _ _ _ Hcfg) in Hmain.
  apply String.eqb_neq in Hne. unfold bind at 1 in Hmain. rewrite Hne in Hmain.
  cbn [negb] in Hmain. unfold main_set, main_watched, index2 in Hmain.
  destruct (DNS config !! domain) as [ips|] eqn:Hips; [|discriminate Hmain].
  cbn [bind ret negb] in Hmain. unfold setDNS in Hmain.
  rewrite buildContent_lines in Hmain.
  destruct w1 as [f [|[|e1 [n1|]] [|[|e2 p2] [|[|e3 [n3|]] [|[|e4 p4] [|[|e5 p5] fs]]]]] t];
    inversion Hmain; subst; simpl;
    (split; [reflexivity|]; split;
     [ rewrite lookup_insert_ne by discriminate; apply lookup_insert_eq
     | apply lookup_insert_eq ]).
Qed.

End Announced.

Lemma main_exits_with_message_witness :
  ∃ text,
    head (trace (main Demo.yaml_Unmarshal Demo.configPath "" Demo.stale).2)
    = Some (Log text)
    ∨ head (trace (main Demo.yaml_Unmarshal Demo.configPath "" Demo.stale).2)
      = Some (Stdout text).
Proof.
  apply (main_exits_with_message Demo.yaml_Unmarshal Demo.configPath ""
           Demo.stale _ 1).
  vm_compute. reflexivity.
Defined.

Lemma explicit_watch_phase_implies_applied_witness :
  DNS Demo.config !! "cloudflare" = Some ["1.1.1.1"; "1.0.0.1"]
  ∧ files (main Demo.yaml_Unmarshal Demo.configPath "cloudflare" Demo.fresh).2
      !! resolvConfPath = Some (resolv_lines ["1.1.1.1"; "1.0.0.1"])
  ∧ files (main Demo.yaml_Unmarshal Demo.configPath "cloudflare" Demo.fresh).2
      !! lastDNSFilePath = Some "cloudflare".
Proof.
  apply (explicit_watch_phase_implies_applied Demo.yaml_Unmarshal Demo.configPath
           "cloudflare" Demo.config ["1.1.1.1"; "1.0.0.1"] Demo.fresh
           (readConfig Demo.yaml_Unmarshal Demo.configPath Demo.fresh).2).
  - discriminate.
  - vm_compute. reflexivity.
  - vm_compute. reflexivity.
Defined.


(** ** From the command line *)

Section CommandLineFacts.

Variable flag_Parse : string → string → list string → IO (string * string).
Variable yaml_Unmarshal : string → Config → Config * option error.

(** X4. [main] does not return to its caller.  An execution either ends
    inside [flag.Parse] with what the flag package decides, nothing
    else having been done, or goes on with the values of the flags and
    then ends the process with status 1 or leaves it blocked in the
    watch phase; the nil configuration pointer is never dereferenced. *)
Theorem main_argv_outcome (args : list string) (w : World) :
  (∀ u w', main_argv flag_Parse yaml_Unmarshal args w ≠ (Ret u, w'))
  ∧ match flag_Parse "/etc/dnsmng/config.yaml" "" args w with
    | (Ret (configPath, domain), w1) =>
        main_argv flag_Parse yaml_Unmarshal args w
        = main yaml_Unmarshal configPath domain w1
        ∧ ((main_argv flag_Parse yaml_Unmarshal args w).1 = Exit 1
           ∨ ∃ l, (main_argv flag_Parse yaml_Unmarshal args w).1 = Parked l)
    | (Exit c, w1) => main_argv flag_Parse yaml_Unmarshal args w = (Exit c, w1)
    | (Parked l, w1) => main_argv flag_Parse yaml_Unmarshal args w = (Parked l, w1)
    end.
Proof.
  unfold main_argv, bind.
  destruct (flag_Parse "/etc/dnsmng/config.yaml" "" args w) as [[[cp d]|c|l] w1].
  - split; [intros u w'; apply main_no_ret|].
    split; [reflexivity | apply main_exits_1_or_parks].
  - split; [intros u w' H; discriminate H | reflexivity].
  - split; [intros u w' H; discriminate H | reflexivity].
Qed.

(** X20. An execution of the earlier [main] either ends inside
    [flag.Parse], nothing else having been done, or goes on with the
    values of the flags and then returns or exits with status 1,
    changes no file other than the resolver file, and makes as system
    calls the read of the configuration followed by at most one write,
    to the resolver file: the last-selection file is neither read nor
    written and no watcher is created. *)
Theorem legacy_main_argv_outcome (args : list string) (w : World) :
  match flag_Parse "/etc/dnsmng/config.yaml" "local" args w with
  | (Ret (configPath, domain), w1) =>
      ∃ r w',
        legacy_main_argv flag_Parse yaml_Unmarshal args w = (r, w')
        ∧ (r = Ret tt ∨ r = Exit 1)
        ∧ (∀ path, path ≠ resolvConfPath → files w' !! path = files w1 !! path)
        ∧ ∃ pre, syscalls (trace w')
                 = pre ++ SysReadFile configPath :: syscalls (trace w1)
                 ∧ (pre = [] ∨ ∃ data, pre = [SysWriteFile resolvConfPath data])
  | (Exit c, w1) => legacy_main_argv flag_Parse yaml_Unmarshal args w = (Exit c, w1)
  | (Parked l, w1) => legacy_main_argv flag_Parse yaml_Unmarshal args w = (Parked l, w1)
  end.
Proof.
  unfold legacy_main_argv, bind.
  destruct (flag_Parse "/etc/dnsmng/config.yaml" "local" args w) as [[[cp d]|c|l] w1];
    [|reflexivity|reflexivity].
  apply legacy_main_outcome.
Qed.

End CommandLineFacts.

(** A flag that is not declared: the process ends inside the flag
    package.  A selection that is not configured: status 1. *)
Lemma main_argv_outcome_witness :
  (∀ u w', main_argv Cli.flag_Parse Demo.yaml_Unmarshal ["-bogus"; "x"] Demo.fresh
           ≠ (Ret u, w'))
  ∧ main_argv Cli.flag_Parse Demo.yaml_Unmarshal ["-bogus"; "x"] Demo.fresh
    = (Exit 2, (Cli.flag_Parse "/etc/dnsmng/config.yaml" "" ["-bogus"; "x"] Demo.fresh).2).
Proof.
  exact (main_argv_outcome Cli.flag_Parse Demo.yaml_Unmarshal ["-bogus"; "x"] Demo.fresh).
Defined.

(** Without arguments the earlier program applies ["local"]. *)
Lemma legacy_main_argv_outcome_witness :
  ∃ r w',
    legacy_main_argv Cli.flag_Parse Demo.yaml_Unmarshal [] Demo.fresh = (r, w')
    ∧ (r = Ret tt ∨ r = Exit 1)
    ∧ (∀ path, path ≠ resolvConfPath →
         files w' !! path
         = files (Cli.flag_Parse "/etc/dnsmng/config.yaml" "local" [] Demo.fresh).2 !! path)
    ∧ ∃ pre, syscalls (trace w')
             = pre ++ SysReadFile "/etc/dnsmng/config.yaml"
                 :: syscalls (trace (Cli.flag_Parse "/etc/dnsmng/config.yaml" "local" []
                                       Demo.fresh).2)
             ∧ (pre = [] ∨ ∃ data, pre = [SysWriteFile resolvConfPath data]).
Proof.
  exact (legacy_main_argv_outcome Cli.flag_Parse Demo.yaml_Unmarshal [] Demo.fresh).
Defined.

(** The stand-in on the forms it knows. *)
Example cli_set_google :
  (main_argv Cli.flag_Parse Demo.yaml_Unmarshal ["-set"; "google"] Demo.fresh).1 = Exit 1
  ∧ (main_argv Cli.flag_Parse Demo.yaml_Unmarshal ["-h"] Demo.fresh).1 = Exit 0
  ∧ (main_argv Cli.flag_Parse Demo.yaml_Unmarshal ["-set"; "cloudflare"] Demo.fresh).1
    = Parked ["1.1.1.1"; "1.0.0.1"]
  ∧ (legacy_main_argv Cli.flag_Parse Demo.yaml_Unmarshal [] Demo.fresh).1 = Ret tt.
Proof. vm_compute. repeat split; reflexivity. Qed.
